(** * Signature and structure diff engine of kernel_api_diff

    A shallow embedding of the declaration extractor, the parameter
    decomposer, the positional parameter diff, the field diff
    ([analyze_source_diff.py]), of the modified-function step of
    [kernel_api_analyzer.py] and of the ABI classifier
    ([abi_impact_analyzer.py]), followed by the properties of the
    specification that concern them.

    Python values are modelled as follows.
    - [str] is [string]; a character is a code point below 256.
    - an exception is a constructor of [exn]; a computation that may
      raise returns a [pyresult].
    - a [dict] with a fixed set of keys is a record; a [dict] used as a
      tagged record (key ['type']) is an inductive type.
    - a [set] of [str] is a [gset string]; [list(set)] is [elements],
      whose order the theorems never rely on.
    - a source tree is a function from paths to the result of
      [open(path).readlines()]. *)

From Stdlib Require Import Ascii String ZArith Lia DecimalString.
From stdpp Require Import base list gmap strings.

Local Open Scope Z_scope.
Local Open Scope stdpp_scope.

(** [simpl] unfolds string concatenation on a constructor. *)
Local Arguments String.append !_ _ / : simpl nomatch.

(** ** Exceptions *)

Inductive exn : Set :=
| IndexError
| KeyError
| OSError.

Inductive pyresult (A : Type) : Type :=
| Ok (a : A)
| Raise (e : exn).
Arguments Ok {A} a.
Arguments Raise {A} e.

Definition bind {A B : Type} (m : pyresult A) (k : A -> pyresult B) : pyresult B :=
  match m with
  | Ok a => k a
  | Raise e => Raise e
  end.

Notation "'let*' x ':=' m 'in' k" := (bind m (fun x => k))
  (at level 10, x name, m at level 100, k at level 200).

(** [try: body / except Exception: return dflt]. *)
Definition try_except {A : Type} (body : pyresult A) (dflt : A) : pyresult A :=
  match body with
  | Ok a => Ok a
  | Raise _ => Ok dflt
  end.

(** [xs[0]] and [xs[-1]]: both raise [IndexError] on the empty list. *)
Definition index_first {A : Type} (xs : list A) : pyresult A :=
  match xs with
  | [] => Raise IndexError
  | x :: _ => Ok x
  end.

Fixpoint index_last {A : Type} (xs : list A) : pyresult A :=
  match xs with
  | [] => Raise IndexError
  | [x] => Ok x
  | _ :: xs' => index_last xs'
  end.

(** [xs[i]] for a non-negative [i]. *)
Definition index_at {A : Type} (xs : list A) (i : nat) : pyresult A :=
  match xs !! i with
  | Some x => Ok x
  | None => Raise IndexError
  end.

(** ** The [str] methods and regular expressions the sources use *)

Module Py.

(** [str.isspace] on one character, which is also what [\s] matches and
    what [strip] and [split] without a separator remove: the code points
    9..13, 28..32, 133 and 160. *)
Definition isspace (c : ascii) : bool :=
  let n := N_of_ascii c in
  ((9 <=? n) && (n <=? 13) || (28 <=? n) && (n <=? 32)
   || (n =? 133) || (n =? 160))%N.

Fixpoint lstrip (s : string) : string :=
  match s with
  | EmptyString => EmptyString
  | String c s' => if isspace c then lstrip s' else s
  end.

Fixpoint rstrip (s : string) : string :=
  match s with
  | EmptyString => EmptyString
  | String c s' =>
      match rstrip s' with
      | EmptyString => if isspace c then EmptyString else String c EmptyString
      | r => String c r
      end
  end.

(** [s.strip()] *)
Definition strip (s : string) : string := rstrip (lstrip s).

(** [s.lstrip(ch)] for a one-character argument. *)
Fixpoint lstrip_char (ch : ascii) (s : string) : string :=
  match s with
  | EmptyString => EmptyString
  | String c s' => if Ascii.eqb c ch then lstrip_char ch s' else s
  end.

(** [ch in s] for a one-character [ch]. *)
Fixpoint has_char (ch : ascii) (s : string) : bool :=
  match s with
  | EmptyString => false
  | String c s' => Ascii.eqb c ch || has_char ch s'
  end.

(** [sub in s] *)
Fixpoint contains (sub s : string) : bool :=
  String.prefix sub s ||
  match s with
  | EmptyString => false
  | String _ s' => contains sub s'
  end.

(** [s.startswith(p)] *)
Definition startswith (p s : string) : bool := String.prefix p s.

(** [s.count(ch)] for a one-character [ch]. *)
Fixpoint count_char (ch : ascii) (s : string) : Z :=
  match s with
  | EmptyString => 0
  | String c s' => (if Ascii.eqb c ch then 1 else 0) + count_char ch s'
  end.

(** [s.split(sep)] for a one-character separator: never empty. *)
Fixpoint split_char (sep : ascii) (s : string) : list string :=
  match s with
  | EmptyString => [EmptyString]
  | String c s' =>
      if Ascii.eqb c sep then EmptyString :: split_char sep s'
      else match split_char sep s' with
           | w :: ws => String c w :: ws
           | [] => [String c EmptyString]
           end
  end.

(** [s.split()]: the maximal runs of non-whitespace characters. [cur] is
    the run being read. *)
Fixpoint split_ws_from (cur : string) (s : string) : list string :=
  match s with
  | EmptyString => match cur with EmptyString => [] | _ => [cur] end
  | String c s' =>
      if isspace c then
        match cur with
        | EmptyString => split_ws_from EmptyString s'
        | _ => cur :: split_ws_from EmptyString s'
        end
      else split_ws_from (cur +:+ String c EmptyString) s'
  end.

Definition split_ws (s : string) : list string := split_ws_from EmptyString s.

(** [s.rsplit(None, 1)]: the last run of non-whitespace characters, and
    before it what is left once the whitespace in between is removed, when
    that is not empty. *)
Fixpoint any_space (t : string) : bool :=
  match t with
  | EmptyString => false
  | String c t' => isspace c || any_space t'
  end.

(** The text before and the text after the last whitespace character. *)
Fixpoint cut_last_space (t : string) : string * string :=
  match t with
  | EmptyString => (EmptyString, EmptyString)
  | String c t' =>
      if any_space t' then
        let '(h, k) := cut_last_space t' in (String c h, k)
      else if isspace c then (EmptyString, t')
      else (EmptyString, t)
  end.

Definition rsplit1 (s : string) : list string :=
  match rstrip s with
  | EmptyString => []
  | r =>
      let '(h, k) := cut_last_space r in
      match rstrip h with
      | EmptyString => [k]
      | h' => [h'; k]
      end
  end.

(** [re.sub(r'\s+', ' ', s)]: every maximal run of whitespace becomes one
    space. A whitespace character followed by another one is dropped, the
    last one of a run is replaced. *)
Fixpoint collapse_ws (s : string) : string :=
  match s with
  | EmptyString => EmptyString
  | String c s' =>
      if isspace c then
        match s' with
        | String c' _ =>
            if isspace c' then collapse_ws s'
            else String " " (collapse_ws s')
        | EmptyString => String " " EmptyString
        end
      else String c (collapse_ws s')
  end.

(** [sep.join(xs)] *)
Fixpoint join (sep : string) (xs : list string) : string :=
  match xs with
  | [] => EmptyString
  | [x] => x
  | x :: xs' => x +:+ sep +:+ join sep xs'
  end.

(** The lazy [(.*?)\)] from a given position: the text up to the first
    [)], provided no newline comes before it. *)
Fixpoint until_close (s : string) : option string :=
  match s with
  | EmptyString => None
  | String c s' =>
      if Ascii.eqb c ")" then Some EmptyString
      else if Ascii.eqb c "010" then None
      else String c <$> until_close s'
  end.

(** [re.search(r'\((.*?)\)', s)], giving [group(1)] of the leftmost
    match. *)
Fixpoint search_parens (s : string) : option string :=
  match s with
  | EmptyString => None
  | String c s' =>
      if Ascii.eqb c "(" then
        match until_close s' with
        | Some g => Some g
        | None => search_parens s'
        end
      else search_parens s'
  end.

End Py.

(** ** analyze_source_diff.py: class SourceDiffAnalyzer *)

(** A parameter: the dict with keys ['type'], ['name'] and ['full']. *)
Record Param : Set := mkParam {
  p_type : string;
  p_name : string;
  p_full : string
}.

(** A record of [compare_function_parameters]; the constructor is the
    value of the key ['type'], the arguments are the other keys in the
    order of the source. *)
Inductive ParamChange : Set :=
| param_count_change (old_count new_count : nat)
| param_type_change (position : nat) (old_type new_type param_name : string)
| param_name_change (position : nat) (old_name new_name : string)
| param_added (position : nat) (param : string)
| param_removed (position : nat) (param : string).

(** An entry of ['modified'] in the result of [compare_struct_fields];
    its key ['change'] is always ['reordered']. *)
Record FieldMove : Set := mkFieldMove {
  fm_position : nat;
  fm_old : string;
  fm_new : string
}.

Record FieldChanges : Set := mkFieldChanges {
  fc_added : list string;
  fc_removed : list string;
  fc_modified : list FieldMove
}.

Global Instance Param_eq_dec : EqDecision Param.
Proof. solve_decision. Defined.
Global Instance ParamChange_eq_dec : EqDecision ParamChange.
Proof. solve_decision. Defined.
Global Instance FieldMove_eq_dec : EqDecision FieldMove.
Proof. solve_decision. Defined.

(** Truth value of a [str]: non-empty. *)
Definition truthy (s : string) : bool :=
  match s with
  | EmptyString => false
  | _ => true
  end.

(** [range(a, b)] for [0 <= a]. *)
Definition range (a b : Z) : list nat := seq (Z.to_nat a) (Z.to_nat (b - a)).

Definition len {A : Type} (xs : list A) : Z := Z.of_nat (length xs).

Definition _parse_single_param (param : string) : Param :=
  let param := Py.collapse_ws (Py.strip param) in
  match Py.rsplit1 param with
  | [param_type; param_name] =>
      if Py.startswith "*" param_name then
        mkParam (Py.strip (param_type +:+ " *"))
                (Py.strip (Py.lstrip_char "*" param_name)) param
      else mkParam (Py.strip param_type) (Py.strip param_name) param
  | _ => mkParam (Py.strip param) (Py.strip "") param
  end.

(** The state of the splitting loop of [parse_function_parameters]. *)
Record SplitState : Set := mkSplit {
  params : list Param;
  depth : Z;
  current_param : string
}.

Definition split_step (st : SplitState) (char : ascii) : SplitState :=
  if Ascii.eqb char "," && (depth st =? 0) then
    let param := Py.strip (current_param st) in
    mkSplit (if truthy param then params st ++ [_parse_single_param param]
             else params st)
            (depth st) ""
  else
    let depth' :=
      if Py.has_char char "([{" then depth st + 1
      else if Py.has_char char ")]}" then depth st - 1
      else depth st in
    mkSplit (params st) depth' (current_param st +:+ String char "").

Definition parse_function_parameters (signature : string) : list Param :=
  match Py.search_parens signature with
  | None => []
  | Some g =>
      let params_str := Py.strip g in
      if negb (truthy params_str) || String.eqb params_str "void" then []
      else params (fold_left split_step
                     (list_ascii_of_string (params_str +:+ ","))
                     (mkSplit [] 0 ""))
  end.

(** The body of the positional loop at index [i]. *)
Definition compare_at (i : nat) (old_p new_p : Param) : list ParamChange :=
  (if bool_decide (p_type old_p ≠ p_type new_p) then
     [param_type_change i (p_type old_p) (p_type new_p) (p_name new_p)]
   else [])
  ++
  (if truthy (p_name old_p) && truthy (p_name new_p)
      && bool_decide (p_name old_p ≠ p_name new_p) then
     [param_name_change i (p_name old_p) (p_name new_p)]
   else []).

(** [for i in idxs: changes.append(mk(i, ps[i]))] *)
Definition extras (mk : nat -> string -> ParamChange) (ps : list Param)
    (idxs : list nat) : list ParamChange :=
  flat_map (fun i => match ps !! i with
                     | Some p => [mk i (p_full p)]
                     | None => []
                     end) idxs.

Definition compare_function_parameters (old_params new_params : list Param)
    : list ParamChange :=
  (if bool_decide (length old_params ≠ length new_params) then
     [param_count_change (length old_params) (length new_params)]
   else [])
  ++
  flat_map (fun i => match old_params !! i, new_params !! i with
                     | Some old_p, Some new_p => compare_at i old_p new_p
                     | _, _ => []
                     end)
           (range 0 (Z.min (len old_params) (len new_params)))
  ++
  (if len new_params >? len old_params then
     extras param_added new_params (range (len old_params) (len new_params))
   else [])
  ++
  (if len old_params >? len new_params then
     extras param_removed old_params (range (len new_params) (len old_params))
   else []).

(** [enumerate(zip(old_fields, new_fields))] from index [i]. *)
Fixpoint enumerate_zip (i : nat) (old_fields new_fields : list string)
    : list (nat * (string * string)) :=
  match old_fields, new_fields with
  | old_f :: os, new_f :: ns => (i, (old_f, new_f)) :: enumerate_zip (S i) os ns
  | _, _ => []
  end.

Definition compare_struct_fields (old_fields new_fields : list string)
    : FieldChanges :=
  let old_set : gset string := list_to_set old_fields in
  let new_set : gset string := list_to_set new_fields in
  let added := elements (new_set ∖ old_set) in
  let removed := elements (old_set ∖ new_set) in
  let modified :=
    flat_map (fun '(i, (old_f, new_f)) =>
                if bool_decide (old_f ≠ new_f) && bool_decide (old_f ∈ new_set)
                   && bool_decide (new_f ∈ old_set)
                then [mkFieldMove i old_f new_f] else [])
             (enumerate_zip 0 old_fields new_fields) in
  mkFieldChanges added removed modified.

(** The two extractors read a file; the source tree is [readlines], which
    gives [None] where [open] raises. *)
Section Extraction.

Variable readlines : string -> option (list string).

Definition open_readlines (file_path : string) : pyresult (list string) :=
  match readlines file_path with
  | Some lines => Ok lines
  | None => Raise OSError
  end.

(** The scanning loop of [extract_function_signature], with its two
    [break]s. *)
Fixpoint scan_signature (lines : list string) (idxs : list nat)
    (signature_lines : list string) : pyresult (list string) :=
  match idxs with
  | [] => Ok signature_lines
  | i :: rest =>
      let* raw := index_at lines i in
      let line := Py.strip raw in
      let signature_lines := signature_lines ++ [line] in
      if Py.has_char "{" line then Ok signature_lines
      else if Py.has_char ";" line then Ok signature_lines
      else scan_signature lines rest signature_lines
  end.

Definition extract_function_signature_body (file_path : string)
    (line_num : Z) : pyresult string :=
  let* lines := open_readlines file_path in
  let* signature_lines :=
    scan_signature lines
      (range (Z.max 0 (line_num - 1)) (Z.min (len lines) (line_num + 20))) [] in
  let signature := Py.join " " signature_lines in
  let signature := Py.collapse_ws signature in
  let* head := index_first (Py.split_char "{" signature) in
  Ok (Py.strip head).

Definition extract_function_signature (file_path function_name : string)
    (line_num : Z) : pyresult string :=
  try_except (extract_function_signature_body file_path line_num) "".

(** The scanning loop of [extract_struct_fields]. *)
Fixpoint scan_fields (struct_name : string) (lines : list string)
    (idxs : list nat) (fields : list string) (in_struct : bool)
    (brace_count : Z) : pyresult (list string) :=
  match idxs with
  | [] => Ok fields
  | i :: rest =>
      let* raw := index_at lines i in
      let line := Py.strip raw in
      if Py.contains "struct" line && Py.contains struct_name line
         && Py.has_char "{" line then
        scan_fields struct_name lines rest fields true 1
      else if in_struct then
        let brace_count :=
          brace_count + (Py.count_char "{" line - Py.count_char "}" line) in
        if brace_count =? 0 then Ok fields
        else if Py.has_char ";" line && negb (Py.startswith "//" line) then
          let* head := index_first (Py.split_char ";" line) in
          let field := Py.strip head in
          if truthy field && negb (Py.startswith "/*" field) then
            scan_fields struct_name lines rest (fields ++ [field]) true brace_count
          else scan_fields struct_name lines rest fields true brace_count
        else scan_fields struct_name lines rest fields true brace_count
      else scan_fields struct_name lines rest fields false brace_count
  end.

Definition extract_struct_fields_body (file_path struct_name : string)
    (line_num : Z) : pyresult (list string) :=
  let* lines := open_readlines file_path in
  scan_fields struct_name lines
    (range (Z.max 0 (line_num - 1)) (Z.min (len lines) (line_num + 500)))
    [] false 0.

Definition extract_struct_fields (file_path struct_name : string)
    (line_num : Z) : pyresult (list string) :=
  try_except (extract_struct_fields_body file_path struct_name line_num) [].

End Extraction.

(** ** kernel_api_analyzer.py: the functions present in both trees *)

(** The keys of a tag entry that [_analyze_functions] reads. *)
Record TagInfo : Set := mkTagInfo {
  tag_file : string;
  tag_line : Z;
  tag_signature : string
}.

(** The change record with ['change_type'] equal to ['modified']. *)
Record FunctionModified : Set := mkFunctionModified {
  fn_name : string;
  fn_file : string;
  old_signature : string;
  new_signature : string;
  old_line : Z;
  new_line : Z;
  return_type_changed : bool;
  old_return_type : string;
  new_return_type : string;
  parameter_changes : list ParamChange
}.

(** [sig.split('(')[0].strip().split()[-1]] *)
Definition return_token (sig : string) : pyresult string :=
  let* head := index_first (Py.split_char "(" sig) in
  index_last (Py.split_ws (Py.strip head)).

(** Lines 90 to 115 of [_analyze_functions]: what is appended for one name
    once both signatures are extracted ([None]: nothing is appended). *)
Definition modified_function (name : string) (old_func new_func : TagInfo)
    (old_sig new_sig : string) : pyresult (option FunctionModified) :=
  if bool_decide (old_sig ≠ new_sig) then
    let old_params := parse_function_parameters old_sig in
    let new_params := parse_function_parameters new_sig in
    let param_changes := compare_function_parameters old_params new_params in
    let* old_return := return_token old_sig in
    let* new_return := return_token new_sig in
    Ok (Some (mkFunctionModified name (tag_file new_func) old_sig new_sig
                (tag_line old_func) (tag_line new_func)
                (bool_decide (old_return ≠ new_return))
                old_return new_return param_changes))
  else Ok None.

Section AnalyzeFunctions.

Variable readlines : string -> option (list string).
(** [Path(root) / file] *)
Variable path_join : string -> string -> string.

(** The body of the loop over [old_names & new_names]. *)
Definition analyze_common_function (old_kernel new_kernel name : string)
    (old_func new_func : TagInfo) : pyresult (option FunctionModified) :=
  let old_file := path_join old_kernel (tag_file old_func) in
  let new_file := path_join new_kernel (tag_file new_func) in
  let* old_sig :=
    extract_function_signature readlines old_file name (tag_line old_func) in
  let* new_sig :=
    extract_function_signature readlines new_file name (tag_line new_func) in
  modified_function name old_func new_func old_sig new_sig.

End AnalyzeFunctions.

(** ** abi_impact_analyzer.py: class ABIImpactAnalyzer *)

Inductive Severity : Set := high | medium.
Inductive Subject : Set := structure | function.

Record ABIFinding : Set := mkABIFinding {
  abi_type : Subject;
  abi_name : string;
  abi_file : string;
  severity : Severity;
  reasons : list string;
  recommendation : string
}.

(** A modified structure as the classifier reads it; [field_changes] is
    [None] when the key is absent. *)
Record StructModified : Set := mkStructModified {
  st_name : string;
  st_file : string;
  field_changes : option FieldChanges
}.

(** Truth value of [fc.get(key)], for a key that holds a list. *)
Definition fc_get {A : Type} (fc : option FieldChanges)
    (key : FieldChanges -> list A) : bool :=
  match fc with
  | Some c => match key c with [] => false | _ => true end
  | None => false
  end.

Definition _analyze_struct_abi_impact (struct : StructModified)
    : option ABIFinding :=
  let fc := field_changes struct in
  let breaking_reasons :=
    (if fc_get fc fc_removed then ["Fields removed"] else [])
    ++ (if fc_get fc fc_modified then ["Fields reordered"] else [])
    ++ (if fc_get fc fc_added then ["Fields added (potential ABI break)"]
        else []) in
  match breaking_reasons with
  | [] => None
  | _ =>
      Some (mkABIFinding structure (st_name struct) (st_file struct)
              (if fc_get fc fc_removed then high else medium)
              breaking_reasons "Review all users of this structure")
  end.

Definition is_count_change (p : ParamChange) : bool :=
  match p with param_count_change _ _ => true | _ => false end.

Definition is_type_change (p : ParamChange) : bool :=
  match p with param_type_change _ _ _ _ => true | _ => false end.

(** [str(n)] *)
Definition str_of_nat (n : nat) : string := NilEmpty.string_of_uint (Nat.to_uint n).

Definition _analyze_function_abi_impact (func : FunctionModified)
    : option ABIFinding :=
  let param_changes := parameter_changes func in
  let count_changes := List.filter is_count_change param_changes in
  let type_changes := List.filter is_type_change param_changes in
  let breaking_reasons :=
    (match count_changes with [] => [] | _ => ["Parameter count changed"] end)
    ++ (match type_changes with
        | [] => []
        | _ => [str_of_nat (length type_changes) +:+ " parameter type(s) changed"]
        end)
    ++ (if return_type_changed func then ["Return type changed"] else []) in
  match breaking_reasons with
  | [] => None
  | _ =>
      Some (mkABIFinding function (fn_name func) (fn_file func) high
              breaking_reasons "Update all callers")
  end.

(** The entries of [api_changes] with ['change_type'] equal to
    ['modified']; the other entries are skipped by [analyze_abi_impact]. *)
Record ApiChanges : Set := mkApiChanges {
  modified_structs : list StructModified;
  modified_functions : list FunctionModified
}.

Definition analyze_abi_impact (api_changes : ApiChanges) : list ABIFinding :=
  omap _analyze_struct_abi_impact (modified_structs api_changes)
  ++ omap _analyze_function_abi_impact (modified_functions api_changes).

(** ** kernel_api_analyzer.py: structures and macros *)

Section AnalyzeStructs.

Variable readlines : string -> option (list string).
Variable path_join : string -> string -> string.

(** The body of the loop of [_analyze_structs] over
    [old_names & new_names]: the record appended for one name, if any. *)
Definition analyze_common_struct (old_kernel new_kernel name : string)
    (old_struct new_struct : TagInfo) : pyresult (option StructModified) :=
  let old_file := path_join old_kernel (tag_file old_struct) in
  let new_file := path_join new_kernel (tag_file new_struct) in
  let* old_fields :=
    extract_struct_fields readlines old_file name (tag_line old_struct) in
  let* new_fields :=
    extract_struct_fields readlines new_file name (tag_line new_struct) in
  if bool_decide (old_fields ≠ new_fields) then
    let field_changes := compare_struct_fields old_fields new_fields in
    Ok (Some (mkStructModified name (tag_file new_struct) (Some field_changes)))
  else Ok None.

End AnalyzeStructs.

(** A record of [_analyze_macros]; the constructor is the value of the
    key ['change_type']. *)
Inductive MacroChange : Set :=
| macro_added (name file : string)
| macro_removed (name file : string)
| macro_modified (name file old_definition new_definition : string).

Definition macro_name (c : MacroChange) : string :=
  match c with
  | macro_added name _ | macro_removed name _ | macro_modified name _ _ _ =>
      name
  end.

(** The key ['change_type'] of a record. *)
Definition macro_change_type (c : MacroChange) : string :=
  match c with
  | macro_added _ _ => "added"
  | macro_removed _ _ => "removed"
  | macro_modified _ _ _ _ => "modified"
  end.

(** [_analyze_macros]; the order in which a set of names is visited is
    that of [elements]. A name taken from the keys of a dict is a key of
    it, so the lookups of the source cannot fail. *)
Definition _analyze_macros (old_macros new_macros : gmap string TagInfo)
    : list MacroChange :=
  let old_names : gset string := dom old_macros in
  let new_names : gset string := dom new_macros in
  flat_map (fun name => match new_macros !! name with
                        | Some t => [macro_added name (tag_file t)]
                        | None => []
                        end)
           (elements (new_names ∖ old_names))
  ++
  flat_map (fun name => match old_macros !! name with
                        | Some t => [macro_removed name (tag_file t)]
                        | None => []
                        end)
           (elements (old_names ∖ new_names))
  ++
  flat_map (fun name => match old_macros !! name, new_macros !! name with
                        | Some o, Some n =>
                            if bool_decide (tag_signature o ≠ tag_signature n)
                            then [macro_modified name (tag_file n)
                                    (tag_signature o) (tag_signature n)]
                            else []
                        | _, _ => []
                        end)
           (elements (old_names ∩ new_names)).

(** One entry of ['summary']. *)
Record Summary : Set := mkSummary {
  sum_added : nat;
  sum_removed : nat;
  sum_modified : nat;
  total_changes : nat
}.

(** The body of the loop of [_generate_summary] for one category, whose
    items have their ['change_type'] read by [change_type]. *)
Definition _generate_summary {A : Type} (change_type : A -> string)
    (items : list A) : Summary :=
  let count (kind : string) :=
    length (List.filter (fun x => String.eqb (change_type x) kind) items) in
  mkSummary (count "added") (count "removed") (count "modified")
    (length items).

(** ** subsystem_analyzer.py: the subsystem of a file *)

(** [s.endswith(suf)]: some tail of [s] is [suf]. *)
Fixpoint endswith (suf s : string) : bool :=
  String.eqb suf s ||
  match s with
  | EmptyString => false
  | String _ s' => endswith suf s'
  end.

(** [_identify_subsystems]: the dict, in the order of its keys. *)
Definition _identify_subsystems : list (string * string) :=
  [("mm", "include/linux/mm*.h");
   ("fs", "include/linux/fs*.h");
   ("net", "include/linux/net*.h include/net/");
   ("drivers", "include/linux/device*.h include/linux/driver*.h");
   ("sched", "include/linux/sched*.h");
   ("block", "include/linux/blk*.h");
   ("crypto", "include/linux/crypto*.h include/crypto/")].

(** The loop of [_categorize_file] over the items of the dict. *)
Fixpoint categorize_in (subsystems : list (string * string))
    (file_path : string) : string :=
  match subsystems with
  | [] => "other"
  | (subsys, pattern) :: rest =>
      if existsb (fun p => Py.contains p file_path) (Py.split_ws pattern)
      then subsys
      else categorize_in rest file_path
  end.

Definition _categorize_file (file_path : string) : string :=
  categorize_in _identify_subsystems file_path.

(** ** parse_ctags.py: class CTagsParser *)

(** A decoded line of the tags file: the keys that [_process_tag] reads,
    [None] for a key that is absent. *)
Record CTag : Set := mkCTag {
  ct_name : option string;
  ct_kind : option string;
  ct_path : option string;
  ct_signature : option string;
  ct_line : option Z;
  ct_scope : option string;
  ct_access : option string
}.

(** The dict [tag_info]. *)
Record TagEntry : Set := mkTagEntry {
  te_name : option string;
  te_file : string;
  te_line : Z;
  te_signature : string;
  te_scope : string;
  te_access : string
}.

(** The five dicts of the parser; a key is the name of the tag, which is
    [None] when the tag has none. *)
Record CTagsParser : Type := mkCTagsParser {
  cp_functions : gmap (option string) TagEntry;
  cp_macros : gmap (option string) TagEntry;
  cp_structs : gmap (option string) TagEntry;
  cp_typedefs : gmap (option string) TagEntry;
  cp_enums : gmap (option string) TagEntry
}.

Definition new_parser : CTagsParser := mkCTagsParser ∅ ∅ ∅ ∅ ∅.

Definition _is_public_api (path : option string) : bool :=
  match path with
  | None => false
  | Some path =>
      if negb (truthy path) then false
      else Py.contains "include/" path && endswith ".h" path
  end.

Definition _process_tag (self : CTagsParser) (tag : CTag) : CTagsParser :=
  let name := ct_name tag in
  let kind := ct_kind tag in
  let path := ct_path tag in
  let signature := default "" (ct_signature tag) in
  let line := default 0 (ct_line tag) in
  if negb (_is_public_api path) then self
  else
    let tag_info :=
      mkTagEntry name (default "" path) line signature
        (default "" (ct_scope tag)) (default "public" (ct_access tag)) in
    if bool_decide (kind = Some "function") then
      mkCTagsParser (<[name := tag_info]> (cp_functions self))
        (cp_macros self) (cp_structs self) (cp_typedefs self) (cp_enums self)
    else if bool_decide (kind = Some "macro") then
      mkCTagsParser (cp_functions self) (<[name := tag_info]> (cp_macros self))
        (cp_structs self) (cp_typedefs self) (cp_enums self)
    else if bool_decide (kind = Some "struct") then
      mkCTagsParser (cp_functions self) (cp_macros self)
        (<[name := tag_info]> (cp_structs self)) (cp_typedefs self)
        (cp_enums self)
    else if bool_decide (kind = Some "typedef") then
      mkCTagsParser (cp_functions self) (cp_macros self) (cp_structs self)
        (<[name := tag_info]> (cp_typedefs self)) (cp_enums self)
    else if bool_decide (kind = Some "enum") then
      mkCTagsParser (cp_functions self) (cp_macros self) (cp_structs self)
        (cp_typedefs self) (<[name := tag_info]> (cp_enums self))
    else self.

(** [parse]: the lines of the tags file in order, [None] for a line that
    [json.loads] rejects, which is skipped. *)
Definition parse (lines : list (option CTag)) : CTagsParser :=
  fold_left (fun self line => match line with
                              | Some tag => _process_tag self tag
                              | None => self
                              end)
            lines new_parser.

(** ** compare_ctags.py: the symbol table *)

(** A decoded tag: the keys that [parse_ctags_json] reads. *)
Record JTag : Set := mkJTag {
  jt_type : option string;
  jt_name : option string;
  jt_path : option string;
  jt_kind : option string;
  jt_typeref : option string;
  jt_signature : option string
}.

(** [path.endswith((".h", ".H"))] *)
Definition is_header (path : string) : bool :=
  endswith ".h" path || endswith ".H" path.

(** The body of the loop of [parse_ctags_json] for a line that decodes
    to [tag]. *)
Definition ctags_step (symbols : gmap string JTag) (tag : JTag)
    : gmap string JTag :=
  if bool_decide (jt_type tag ≠ Some "tag") then symbols
  else
    match jt_name tag with
    | None => symbols
    | Some name =>
        if negb (truthy name) then symbols
        else
          match symbols !! name with
          | None => <[name := tag]> symbols
          | Some current =>
              let current_path := default "" (jt_path current) in
              let new_path := default "" (jt_path tag) in
              let is_current_header := is_header current_path in
              let is_new_header := is_header new_path in
              if is_new_header && negb is_current_header then
                <[name := tag]> symbols
              else if negb is_new_header && is_current_header then symbols
              else <[name := tag]> symbols
          end
    end.

(** The loop over the lines, [None] for a line that [json.loads]
    rejects. *)
Definition parse_ctags_json (lines : list (option JTag)) : gmap string JTag :=
  fold_left (fun symbols line => match line with
                                 | Some tag => ctags_step symbols tag
                                 | None => symbols
                                 end)
            lines ∅.

(** ** A small source tree for the concrete cases *)

Definition sample_join (root file : string) : string := root +:+ "/" +:+ file.

(** [readlines] keeps the newline that ends a line. *)
Definition with_newline (s : string) : string := s +:+ String "010" EmptyString.

(** Only the new tree has [include/a.h]. *)
Definition sample_tree (path : string) : option (list string) :=
  if String.eqb path "new/include/a.h" then
    Some (with_newline <$>
          ["/* a.h */"; "static int"; "  foo(int a,"; "      char *b) {";
           "  return 0; }";
           "struct pt {"; "  int x;"; "  // int z;"; "  int y;"; "};"])
  else None.

Definition sample_tag : TagInfo := mkTagInfo "include/a.h" 2 "(int a, char *b)".

(** The new tree of [sample_tree] with another first line. *)
Definition sample_tree_recommented (path : string) : option (list string) :=
  match sample_tree path with
  | Some (_ :: lines) => Some (with_newline "/* a.h, revised */" :: lines)
  | other => other
  end.

(** ** Predicates used to state the properties *)

Definition is_name_change (p : ParamChange) : bool :=
  match p with param_name_change _ _ _ => true | _ => false end.

Definition is_added (p : ParamChange) : bool :=
  match p with param_added _ _ => true | _ => false end.

Definition is_removed (p : ParamChange) : bool :=
  match p with param_removed _ _ => true | _ => false end.

(** A record of the positional loop, below a bound. *)
Definition in_prefix (bound : nat) (c : ParamChange) : Prop :=
  match c with
  | param_type_change i _ _ _ | param_name_change i _ _ => (i < bound)%nat
  | _ => False
  end.

(** The four blocks of [compare_function_parameters]. *)
Definition count_block (old_params new_params : list Param) : list ParamChange :=
  if bool_decide (length old_params ≠ length new_params) then
    [param_count_change (length old_params) (length new_params)]
  else [].

Definition prefix_block (old_params new_params : list Param) : list ParamChange :=
  flat_map (fun i => match old_params !! i, new_params !! i with
                     | Some old_p, Some new_p => compare_at i old_p new_p
                     | _, _ => []
                     end)
           (range 0 (Z.min (len old_params) (len new_params))).

Definition added_block (old_params new_params : list Param) : list ParamChange :=
  if len new_params >? len old_params then
    extras param_added new_params (range (len old_params) (len new_params))
  else [].

Definition removed_block (old_params new_params : list Param) : list ParamChange :=
  if len old_params >? len new_params then
    extras param_removed old_params (range (len new_params) (len old_params))
  else [].

(** The positional loop as the specification reads it: a name record at an index of
    the overlapping prefix needs equal types there, and unequal types
    leave no name record. *)
Definition name_change_requires_equal_types (old_params new_params : list Param)
    : Prop :=
  ∀ i o n, old_params !! i = Some o -> new_params !! i = Some n ->
    (∀ on nn,
       param_name_change i on nn
         ∈ compare_function_parameters old_params new_params ->
       p_type o = p_type n ∧ p_name o ≠ "" ∧ p_name n ≠ ""
       ∧ p_name o ≠ p_name n)
    ∧ (p_type o ≠ p_type n ->
       ∀ on nn,
         param_name_change i on nn
           ∉ compare_function_parameters old_params new_params).

Fixpoint all_space (s : string) : bool :=
  match s with
  | EmptyString => true
  | String c s' => Py.isspace c && all_space s'
  end.

(** [tok] is the last whitespace-delimited token of the text of [sig]
    before its first opening parenthesis: that text is [pre], then [tok],
    then whitespace only, where [pre] is empty or ends in whitespace. *)
Definition last_token_before_paren (sig tok : string) : Prop :=
  ∃ pre ws rest : string,
    sig = pre +:+ tok +:+ ws +:+ String "(" rest
    ∧ Py.has_char "(" pre = false
    ∧ Py.has_char "(" tok = false
    ∧ tok ≠ "" ∧ Py.any_space tok = false
    ∧ all_space ws = true
    ∧ (pre = "" ∨ ∃ pre' c, pre = pre' +:+ String c "" ∧ Py.isspace c = true).

(** A header written as a return-type text, one space, the function name
    and the parenthesised rest. *)
Definition typed_header (ret fname rest : string) : string :=
  ret +:+ String " " (fname +:+ String "(" rest).

(** A function name: one token without a parenthesis, with the asterisks
    that stick to it. *)
Definition name_token (fname : string) : Prop :=
  fname ≠ "" ∧ Py.any_space fname = false ∧ Py.has_char "(" fname = false.

(** The second sentence of C7 as the specification has it: between two
    headers that differ in the return-type text alone, the flag of the
    emitted record is unset. *)
Definition return_type_alone_keeps_flag (ret_old ret_new fname rest : string)
    : Prop :=
  name_token fname ->
  ∀ name old_func new_func r,
    modified_function name old_func new_func
      (typed_header ret_old fname rest) (typed_header ret_new fname rest)
    = Ok (Some r) ->
    return_type_changed r = false.

(** A text whose whitespace is normalised: every whitespace character is
    a space and none is followed by another whitespace character. *)
Fixpoint ws_normal (s : string) : bool :=
  match s with
  | EmptyString => true
  | String c s' =>
      (if Py.isspace c then
         Ascii.eqb c " "
         && match s' with
            | String c' _ => negb (Py.isspace c')
            | EmptyString => true
            end
       else true)
      && ws_normal s'
  end.

(** A text that is empty or starts with a character that is not
    whitespace. *)
Definition starts_clean (s : string) : bool :=
  match s with
  | EmptyString => true
  | String c _ => negb (Py.isspace c)
  end.

(** What [extract_struct_fields] keeps of a member line. *)
Definition field_text (f : string) : Prop :=
  f ≠ "" ∧ Py.has_char ";" f = false ∧ Py.strip f = f
  ∧ Py.startswith "/*" f = false.

(** The test of [extract_struct_fields] for the line that opens the
    structure, on the line as read. *)
Definition opens_struct (struct_name line : string) : bool :=
  Py.contains "struct" (Py.strip line)
  && Py.contains struct_name (Py.strip line)
  && Py.has_char "{" (Py.strip line).

(** The three blocks of [_analyze_macros]. *)
Definition added_macros (old_macros new_macros : gmap string TagInfo)
    : list MacroChange :=
  flat_map (fun name => match new_macros !! name with
                        | Some t => [macro_added name (tag_file t)]
                        | None => []
                        end)
           (elements (dom new_macros ∖ dom old_macros)).

Definition removed_macros (old_macros new_macros : gmap string TagInfo)
    : list MacroChange :=
  flat_map (fun name => match old_macros !! name with
                        | Some t => [macro_removed name (tag_file t)]
                        | None => []
                        end)
           (elements (dom old_macros ∖ dom new_macros)).

Definition modified_macros (old_macros new_macros : gmap string TagInfo)
    : list MacroChange :=
  flat_map (fun name => match old_macros !! name, new_macros !! name with
                        | Some o, Some n =>
                            if bool_decide (tag_signature o ≠ tag_signature n)
                            then [macro_modified name (tag_file n)
                                    (tag_signature o) (tag_signature n)]
                            else []
                        | _, _ => []
                        end)
           (elements (dom old_macros ∩ dom new_macros)).

(** A header with nothing but whitespace before its first opening
    parenthesis, or with nothing but whitespace at all. *)
Definition blank_head (sig : string) : Prop :=
  ∃ ws rest, all_space ws = true
             ∧ (sig = ws ∨ sig = ws +:+ String "(" rest).

(** An entry of the parser stored under [name]: it carries that name and
    the path of a public header. *)
Definition public_entry (name : option string) (e : TagEntry) : Prop :=
  te_name e = name
  ∧ Py.contains "include/" (te_file e) = true
  ∧ endswith ".h" (te_file e) = true.

Definition all_entries (P : option string -> TagEntry -> Prop)
    (self : CTagsParser) : Prop :=
  map_Forall P (cp_functions self) ∧ map_Forall P (cp_macros self)
  ∧ map_Forall P (cp_structs self) ∧ map_Forall P (cp_typedefs self)
  ∧ map_Forall P (cp_enums self).

(** A tag of the symbol table stored under [name]. *)
Definition proper_symbol (name : string) (t : JTag) : Prop :=
  jt_type t = Some "tag" ∧ jt_name t = Some name ∧ name ≠ "".

Definition header_tag (t : JTag) : bool := is_header (default "" (jt_path t)).

(** Two tags for one symbol, the first from a header. *)
Definition sample_header_tag : JTag :=
  mkJTag (Some "tag") (Some "kmalloc") (Some "include/linux/slab.h")
    (Some "prototype") (Some "typename:void *") (Some "(size_t size)").

Definition sample_source_tag : JTag :=
  mkJTag (Some "tag") (Some "kmalloc") (Some "mm/slab.c")
    (Some "function") (Some "typename:void *") (Some "(size_t size)").

(** * Properties *)

(** ** The ABI classifier *)

(** C8: a structure diff with a non-empty [removed] gives a finding of
    severity high; one with an empty [removed] and a non-empty [added] or
    [modified] (the reordered entries) gives a finding of severity
    medium. *)
Theorem struct_abi_severity (struct : StructModified) (fc : FieldChanges) :
  field_changes struct = Some fc ->
  fc_removed fc ≠ [] ∨ fc_added fc ≠ [] ∨ fc_modified fc ≠ [] ->
  ∃ f, _analyze_struct_abi_impact struct = Some f
       ∧ severity f = match fc_removed fc with [] => medium | _ => high end.
Proof.
  intros Hfc Hne. unfold _analyze_struct_abi_impact, fc_get. rewrite Hfc.
  destruct (fc_removed fc), (fc_added fc), (fc_modified fc); simpl; eauto;
    destruct Hne as [H | [H | H]]; congruence.
Qed.

Lemma struct_abi_severity_witness :
  ∃ f, _analyze_struct_abi_impact
         (mkStructModified "pt" "include/a.h"
            (Some (mkFieldChanges ["int z"] [] []))) = Some f
       ∧ severity f = medium.
Proof.
  apply (struct_abi_severity
           (mkStructModified "pt" "include/a.h"
              (Some (mkFieldChanges ["int z"] [] [])))
           (mkFieldChanges ["int z"] [] [])).
  - reflexivity.
  - right. left. simpl. discriminate.
Defined.

Lemma filter_none_of {A : Type} (P Q : A -> bool) (xs : list A) :
  (∀ x, Q x = true -> P x = false) ->
  Forall (λ x, Q x = true) xs -> List.filter P xs = [].
Proof.
  intros HPQ. induction 1 as [|x xs Hx _ IH]; simpl; [reflexivity|].
  rewrite (HPQ x Hx). exact IH.
Qed.

(** C9: a function diff all of whose entries are name changes, with the
    return-type flag false, gives no finding, and the run over it records
    nothing. *)
Theorem name_only_no_finding (func : FunctionModified) :
  Forall (λ p, is_name_change p = true) (parameter_changes func) ->
  return_type_changed func = false ->
  _analyze_function_abi_impact func = None
  ∧ analyze_abi_impact (mkApiChanges [] [func]) = [].
Proof.
  intros Hall Hret.
  assert (Hnone : _analyze_function_abi_impact func = None).
  { unfold _analyze_function_abi_impact.
    rewrite (filter_none_of is_count_change is_name_change _
               ltac:(intros []; simpl; congruence) Hall).
    rewrite (filter_none_of is_type_change is_name_change _
               ltac:(intros []; simpl; congruence) Hall).
    rewrite Hret. reflexivity. }
  split; [exact Hnone|].
  unfold analyze_abi_impact. simpl. rewrite Hnone. reflexivity.
Qed.

Lemma name_only_no_finding_witness :
  _analyze_function_abi_impact
    (mkFunctionModified "foo" "include/a.h" "int foo(int a)" "int foo(int b)"
       2 2 false "foo" "foo" [param_name_change 0 "a" "b"]) = None.
Proof.
  apply (name_only_no_finding
           (mkFunctionModified "foo" "include/a.h" "int foo(int a)"
              "int foo(int b)" 2 2 false "foo" "foo"
              [param_name_change 0 "a" "b"])).
  - repeat constructor.
  - reflexivity.
Defined.

(** ** The extractors *)

Lemma try_except_ok {A : Type} (body : pyresult A) (dflt : A) :
  ∃ a, try_except body dflt = Ok a.
Proof. destruct body; simpl; eauto. Qed.

Lemma range_empty (a b : Z) : b <= a -> range a b = [].
Proof.
  intros H. unfold range.
  replace (Z.to_nat (b - a)) with 0%nat by lia. reflexivity.
Qed.

(** C10: neither extractor raises; on a file that cannot be read the
    function extractor gives the empty text and the structure extractor
    the empty list, and so they do when the line lies past the end of the
    file. *)
Theorem extraction_never_raises (readlines : string -> option (list string))
    (file_path name : string) (line_num : Z) :
  (∃ s, extract_function_signature readlines file_path name line_num = Ok s)
  ∧ (∃ fs, extract_struct_fields readlines file_path name line_num = Ok fs)
  ∧ (readlines file_path = None ->
     extract_function_signature readlines file_path name line_num = Ok ""
     ∧ extract_struct_fields readlines file_path name line_num = Ok [])
  ∧ (∀ lines, readlines file_path = Some lines -> len lines < line_num ->
     extract_function_signature readlines file_path name line_num = Ok ""
     ∧ extract_struct_fields readlines file_path name line_num = Ok []).
Proof.
  unfold extract_function_signature, extract_struct_fields.
  split; [apply try_except_ok|]. split; [apply try_except_ok|]. split.
  - intros Hnone.
    unfold extract_function_signature_body, extract_struct_fields_body,
      open_readlines.
    rewrite Hnone. simpl. split; reflexivity.
  - intros lines Hsome Hpast.
    unfold extract_function_signature_body, extract_struct_fields_body,
      open_readlines.
    rewrite Hsome. simpl.
    rewrite !range_empty by lia. simpl. split; reflexivity.
Qed.

Lemma extraction_never_raises_witness :
  extract_function_signature sample_tree "old/include/a.h" "foo" 2 = Ok ""
  ∧ extract_struct_fields sample_tree "new/include/a.h" "pt" 11 = Ok [].
Proof.
  split.
  - destruct (extraction_never_raises sample_tree "old/include/a.h" "foo" 2)
      as (_ & _ & H & _).
    apply H. reflexivity.
  - destruct (extraction_never_raises sample_tree "new/include/a.h" "pt" 11)
      as (_ & _ & _ & H).
    eapply H; [reflexivity | vm_compute; reflexivity].
Defined.

(** ** The modified-function step on a missing file *)

(** C1: the old tree lacks the file, its signature is extracted as the
    empty text, and the step that computes the return type then raises
    [IndexError] instead of completing. *)
Theorem missing_old_file_raises :
  extract_function_signature sample_tree (sample_join "old" "include/a.h")
    "foo" 2 = Ok ""
  ∧ extract_function_signature sample_tree (sample_join "new" "include/a.h")
      "foo" 2 = Ok "static int foo(int a, char *b)"
  ∧ return_token "" = Raise IndexError
  ∧ analyze_common_function sample_tree sample_join "old" "new" "foo"
      sample_tag sample_tag = Raise IndexError.
Proof. repeat split; vm_compute; reflexivity. Qed.

(** ** The parameter decomposer *)

(** C2: on a header with a function-pointer parameter the lazy pattern
    stops at the first closing parenthesis, and no parameter at all comes
    out, where the claim has two. *)
Theorem nested_parens_lose_parameters :
  Py.search_parens "void f(int (*cb)(int, int), long n)" = Some "int (*cb"
  ∧ parse_function_parameters "void f(int (*cb)(int, int), long n)" = []
  ∧ parse_function_parameters "int (*cb)(int, int), long n"
    = [mkParam "*cb" "" "*cb"].
Proof. repeat split; vm_compute; reflexivity. Qed.

(** C6: the asterisks of [char **argv] are all stripped from the name but
    only one reaches the type, so that the type is that of [char *argv];
    the one-asterisk case of the claim comes out as stated. *)
Theorem double_pointer_loses_asterisk :
  _parse_single_param "char **argv" = mkParam "char *" "argv" "char **argv"
  ∧ p_type (_parse_single_param "char **argv")
    = p_type (_parse_single_param "char *argv")
  ∧ parse_function_parameters "void f(int a, char *b)"
    = [mkParam "int" "a" "int a"; mkParam "char *" "b" "char *b"]
  ∧ compare_function_parameters
      (parse_function_parameters "void f(char *argv)")
      (parse_function_parameters "void f(char **argv)") = [].
Proof. repeat split; vm_compute; reflexivity. Qed.

(** ** The field diff *)

Lemma enumerate_zip_spec (k : nat) (old new : list string)
    (i : nat) (o n : string) :
  In (i, (o, n)) (enumerate_zip k old new)
  ↔ ∃ j : nat, i = (k + j)%nat ∧ old !! j = Some o ∧ new !! j = Some n.
Proof.
  revert k new. induction old as [|a old IH]; intros k [|b new]; simpl.
  - split; [tauto | intros (j & _ & H & _); discriminate].
  - split; [tauto | intros (j & _ & H & _); discriminate].
  - split; [tauto | intros (j & _ & _ & H); destruct j; discriminate].
  - rewrite IH. split.
    + intros [H | (j & -> & Ho & Hn)].
      * inversion H; subst. exists 0%nat. rewrite Nat.add_0_r. auto.
      * exists (S j). split; [lia | auto].
    + intros ([|j] & -> & Ho & Hn); simpl in *.
      * left. rewrite Nat.add_0_r. congruence.
      * right. exists j. split; [lia | auto].
Qed.

Lemma elements_difference_spec (xs ys : list string) (x : string) :
  x ∈ elements ((list_to_set xs : gset string) ∖ list_to_set ys)
  ↔ x ∈ xs ∧ x ∉ ys.
Proof.
  rewrite elem_of_elements, elem_of_difference, !elem_of_list_to_set.
  reflexivity.
Qed.

Lemma modified_spec (old_fields new_fields : list string)
    (i : nat) (o n : string) :
  mkFieldMove i o n ∈ fc_modified (compare_struct_fields old_fields new_fields)
  ↔ old_fields !! i = Some o ∧ new_fields !! i = Some n
    ∧ o ≠ n ∧ o ∈ new_fields ∧ n ∈ old_fields.
Proof.
  simpl. rewrite list_elem_of_In, in_flat_map. split.
  - intros ([j [o' n']] & Hin & Hy).
    apply enumerate_zip_spec in Hin. destruct Hin as (j' & -> & Ho & Hn).
    destruct (bool_decide (o' ≠ n')) eqn:H1; [|destruct Hy].
    destruct (bool_decide (o' ∈ (list_to_set new_fields : gset string)))
      eqn:H2; [|destruct Hy].
    destruct (bool_decide (n' ∈ (list_to_set old_fields : gset string)))
      eqn:H3; [|destruct Hy].
    destruct Hy as [Hy | []]. inversion Hy; subst.
    apply bool_decide_eq_true in H1, H2, H3.
    rewrite elem_of_list_to_set in H2, H3. auto.
  - intros (Ho & Hn & Hne & Hon & Hno).
    exists (i, (o, n)). split.
    + apply enumerate_zip_spec. exists i. auto.
    + rewrite !bool_decide_eq_true_2; [left; reflexivity | | | ];
        rewrite ?elem_of_list_to_set; assumption.
Qed.

(** C5: [added] holds the fields of the new list that are not in the old
    one, [removed] those of the old list that are not in the new one, each
    once; the reorder entries are those of the indices where the two
    fields differ and each occurs in the other list. The two diffs of the
    specification come out as stated. *)
Theorem field_diff_sets (old_fields new_fields : list string) :
  let r := compare_struct_fields old_fields new_fields in
  (∀ x, x ∈ fc_added r ↔ x ∈ new_fields ∧ x ∉ old_fields)
  ∧ NoDup (fc_added r)
  ∧ (∀ x, x ∈ fc_removed r ↔ x ∈ old_fields ∧ x ∉ new_fields)
  ∧ NoDup (fc_removed r)
  ∧ (∀ i o n, mkFieldMove i o n ∈ fc_modified r
       ↔ old_fields !! i = Some o ∧ new_fields !! i = Some n
         ∧ o ≠ n ∧ o ∈ new_fields ∧ n ∈ old_fields)
  ∧ compare_struct_fields ["int x;"; "int y;"] ["int y;"; "int x;"]
    = mkFieldChanges [] []
        [mkFieldMove 0 "int x;" "int y;"; mkFieldMove 1 "int y;" "int x;"]
  ∧ compare_struct_fields ["int x;"] ["long x;"]
    = mkFieldChanges ["long x;"] ["int x;"] [].
Proof.
  simpl. split_and!.
  - apply elements_difference_spec.
  - apply NoDup_elements.
  - apply elements_difference_spec.
  - apply NoDup_elements.
  - apply modified_spec.
  - vm_compute. reflexivity.
  - vm_compute. reflexivity.
Qed.

(** ** The parameter diff *)

Lemma compare_blocks (old_params new_params : list Param) :
  compare_function_parameters old_params new_params
  = count_block old_params new_params ++ prefix_block old_params new_params
    ++ added_block old_params new_params ++ removed_block old_params new_params.
Proof. reflexivity. Qed.

Lemma range_lens {A : Type} (xs ys : list A) :
  range (len xs) (len ys) = seq (length xs) (length ys - length xs).
Proof. unfold range, len. f_equal; lia. Qed.

Lemma range_prefix {A : Type} (xs ys : list A) :
  range 0 (Z.min (len xs) (len ys))
  = seq 0 (Nat.min (length xs) (length ys)).
Proof. unfold range, len. f_equal; lia. Qed.

Lemma extras_drop (mk : nat -> string -> ParamChange) (ps : list Param)
    (n a : nat) :
  (a + n)%nat = length ps ->
  extras mk ps (seq a n)
  = imap (λ k p, mk (a + k)%nat (p_full p)) (drop a ps).
Proof.
  revert a. induction n as [|n IH]; intros a Hlen; simpl.
  - rewrite drop_ge by lia. reflexivity.
  - destruct (lookup_lt_is_Some_2 ps a ltac:(lia)) as [p Hp].
    unfold extras in *. rewrite Hp. simpl.
    rewrite (drop_S _ _ _ Hp). simpl.
    rewrite Nat.add_0_r. f_equal.
    rewrite (IH (S a)) by lia.
    apply imap_ext. intros k q _. simpl. f_equal. lia.
Qed.

Lemma extras_Forall (Q : ParamChange -> Prop)
    (mk : nat -> string -> ParamChange) (ps : list Param) (idxs : list nat) :
  (∀ i s, Q (mk i s)) -> Forall Q (extras mk ps idxs).
Proof.
  intros HQ. induction idxs as [|i idxs IH]; simpl; [constructor|].
  destruct (ps !! i); simpl; [constructor; auto | exact IH].
Qed.

Lemma compare_at_in_prefix (bound i : nat) (o n : Param) :
  (i < bound)%nat -> Forall (in_prefix bound) (compare_at i o n).
Proof.
  intros Hi. unfold compare_at. apply Forall_app. split.
  - destruct (bool_decide _); repeat constructor. exact Hi.
  - destruct (_ && _); repeat constructor. exact Hi.
Qed.

Lemma prefix_block_in_prefix (old_params new_params : list Param) :
  Forall (in_prefix (Nat.min (length old_params) (length new_params)))
    (prefix_block old_params new_params).
Proof.
  unfold prefix_block. rewrite range_prefix.
  apply Forall_forall. intros c Hc.
  rewrite list_elem_of_In, in_flat_map in Hc.
  destruct Hc as (i & Hi & Hc). apply in_seq in Hi.
  destruct (old_params !! i), (new_params !! i); try destruct Hc.
  pose proof (compare_at_in_prefix
                (Nat.min (length old_params) (length new_params)) i p p0
                ltac:(lia)) as HF.
  rewrite Forall_forall in HF. apply HF. apply list_elem_of_In. exact Hc.
Qed.

Lemma prefix_block_spec (old_params new_params : list Param) (c : ParamChange) :
  In c (prefix_block old_params new_params)
  ↔ ∃ i o n, old_params !! i = Some o ∧ new_params !! i = Some n
             ∧ In c (compare_at i o n).
Proof.
  unfold prefix_block. rewrite range_prefix, in_flat_map. split.
  - intros (i & _ & Hc).
    destruct (old_params !! i) as [o|] eqn:Ho; [|destruct Hc].
    destruct (new_params !! i) as [n|] eqn:Hn; [|destruct Hc].
    exists i, o, n. auto.
  - intros (i & o & n & Ho & Hn & Hc). exists i. split.
    + apply in_seq. apply lookup_lt_Some in Ho, Hn. lia.
    + rewrite Ho, Hn. exact Hc.
Qed.

Lemma filter_keep {A : Type} (P : A -> bool) (xs : list A) :
  Forall (λ x, P x = true) xs -> List.filter P xs = xs.
Proof.
  induction 1 as [|x xs Hx _ IH]; simpl; [reflexivity|].
  rewrite Hx, IH. reflexivity.
Qed.

Lemma filter_drop {A : Type} (P : A -> bool) (xs : list A) :
  Forall (λ x, P x = false) xs -> List.filter P xs = [].
Proof.
  induction 1 as [|x xs Hx _ IH]; simpl; [reflexivity|].
  rewrite Hx. exact IH.
Qed.

Lemma count_block_Forall (Q : ParamChange -> Prop) (old_params new_params : list Param) :
  (∀ a b, Q (param_count_change a b)) ->
  Forall Q (count_block old_params new_params).
Proof.
  intros HQ. unfold count_block. destruct (bool_decide _); repeat constructor.
  apply HQ.
Qed.

Lemma prefix_block_Forall (Q : ParamChange -> Prop) (old_params new_params : list Param) :
  (∀ i a b c, Q (param_type_change i a b c)) ->
  (∀ i a b, Q (param_name_change i a b)) ->
  Forall Q (prefix_block old_params new_params).
Proof.
  intros H1 H2.
  eapply Forall_impl; [apply prefix_block_in_prefix|].
  intros []; simpl; intros; auto; contradiction.
Qed.

Lemma added_block_Forall (Q : ParamChange -> Prop) (old_params new_params : list Param) :
  (∀ i s, Q (param_added i s)) -> Forall Q (added_block old_params new_params).
Proof.
  intros HQ. unfold added_block. destruct (_ >? _); [|constructor].
  apply extras_Forall. exact HQ.
Qed.

Lemma removed_block_Forall (Q : ParamChange -> Prop) (old_params new_params : list Param) :
  (∀ i s, Q (param_removed i s)) -> Forall Q (removed_block old_params new_params).
Proof.
  intros HQ. unfold removed_block. destruct (_ >? _); [|constructor].
  apply extras_Forall. exact HQ.
Qed.

Lemma added_block_drop (old_params new_params : list Param) :
  added_block old_params new_params
  = imap (λ k p, param_added (length old_params + k)%nat (p_full p))
      (drop (length old_params) new_params).
Proof.
  unfold added_block. destruct (len new_params >? len old_params) eqn:Hgt.
  - rewrite range_lens. apply extras_drop. unfold len in Hgt. lia.
  - rewrite drop_ge by (unfold len in Hgt; lia). reflexivity.
Qed.

Lemma removed_block_drop (old_params new_params : list Param) :
  removed_block old_params new_params
  = imap (λ k p, param_removed (length new_params + k)%nat (p_full p))
      (drop (length new_params) old_params).
Proof.
  unfold removed_block. destruct (len old_params >? len new_params) eqn:Hgt.
  - rewrite range_lens. apply extras_drop. unfold len in Hgt. lia.
  - rewrite drop_ge by (unfold len in Hgt; lia). reflexivity.
Qed.

(** The records of one kind are those of the block that emits them. *)
Lemma filter_blocks (old_params new_params : list Param) :
  let r := compare_function_parameters old_params new_params in
  List.filter is_count_change r = count_block old_params new_params
  ∧ List.filter is_added r = added_block old_params new_params
  ∧ List.filter is_removed r = removed_block old_params new_params.
Proof.
  simpl. rewrite compare_blocks, !List.filter_app.
  split_and!.
  - rewrite (filter_keep is_count_change (count_block _ _))
      by (apply count_block_Forall; reflexivity).
    rewrite (filter_drop is_count_change (prefix_block _ _))
      by (apply prefix_block_Forall; reflexivity).
    rewrite (filter_drop is_count_change (added_block _ _))
      by (apply added_block_Forall; reflexivity).
    rewrite (filter_drop is_count_change (removed_block _ _))
      by (apply removed_block_Forall; reflexivity).
    rewrite !app_nil_r. reflexivity.
  - rewrite (filter_drop is_added (count_block _ _))
      by (apply count_block_Forall; reflexivity).
    rewrite (filter_drop is_added (prefix_block _ _))
      by (apply prefix_block_Forall; reflexivity).
    rewrite (filter_keep is_added (added_block _ _))
      by (apply added_block_Forall; reflexivity).
    rewrite (filter_drop is_added (removed_block _ _))
      by (apply removed_block_Forall; reflexivity).
    rewrite !app_nil_r. reflexivity.
  - rewrite (filter_drop is_removed (count_block _ _))
      by (apply count_block_Forall; reflexivity).
    rewrite (filter_drop is_removed (prefix_block _ _))
      by (apply prefix_block_Forall; reflexivity).
    rewrite (filter_drop is_removed (added_block _ _))
      by (apply added_block_Forall; reflexivity).
    rewrite (filter_keep is_removed (removed_block _ _))
      by (apply removed_block_Forall; reflexivity).
    reflexivity.
Qed.

(** A record of the positional loop is in the result exactly when it is
    emitted at some index of the overlapping prefix. *)
Lemma prefix_record_spec (old_params new_params : list Param) (c : ParamChange) :
  is_type_change c || is_name_change c = true ->
  c ∈ compare_function_parameters old_params new_params
  ↔ ∃ i o n, old_params !! i = Some o ∧ new_params !! i = Some n
             ∧ In c (compare_at i o n).
Proof.
  intros Hc. rewrite <- prefix_block_spec, compare_blocks, list_elem_of_In.
  rewrite !in_app_iff. split; [|tauto].
  set (Q := λ c : ParamChange, is_type_change c || is_name_change c = false).
  assert (HQ : ∀ xs, Forall Q xs -> ¬ In c xs).
  { intros xs HF Hin. apply list_elem_of_In in Hin.
    rewrite Forall_forall in HF. specialize (HF c Hin). unfold Q in HF.
    congruence. }
  intros [H | [H | [H | H]]]; [exfalso | exact H | exfalso | exfalso];
    revert H; apply HQ.
  - apply count_block_Forall. reflexivity.
  - apply added_block_Forall. reflexivity.
  - apply removed_block_Forall. reflexivity.
Qed.

Lemma truthy_true (s : string) : truthy s = true ↔ s ≠ "".
Proof. destruct s; simpl; split; congruence. Qed.

Lemma compare_at_type (i j : nat) (o n : Param) (ot nt nm : string) :
  In (param_type_change i ot nt nm) (compare_at j o n)
  ↔ i = j ∧ ot = p_type o ∧ nt = p_type n ∧ nm = p_name n
    ∧ p_type o ≠ p_type n.
Proof.
  unfold compare_at. rewrite in_app_iff. split.
  - intros [H | H].
    + destruct (bool_decide (p_type o ≠ p_type n)) eqn:Hd; [|destruct H].
      apply bool_decide_eq_true in Hd.
      destruct H as [H | []]. inversion H; subst. auto.
    + destruct (_ && _); [|destruct H]. destruct H as [H | []]. discriminate.
  - intros (-> & -> & -> & -> & Hne). left.
    rewrite bool_decide_eq_true_2 by exact Hne. left. reflexivity.
Qed.

Lemma compare_at_name (i j : nat) (o n : Param) (on nn : string) :
  In (param_name_change i on nn) (compare_at j o n)
  ↔ i = j ∧ on = p_name o ∧ nn = p_name n
    ∧ p_name o ≠ "" ∧ p_name n ≠ "" ∧ p_name o ≠ p_name n.
Proof.
  unfold compare_at. rewrite in_app_iff. split.
  - intros [H | H].
    + destruct (bool_decide _); [|destruct H].
      destruct H as [H | []]. discriminate.
    + destruct (truthy (p_name o) && truthy (p_name n)
                && bool_decide (p_name o ≠ p_name n)) eqn:Hd; [|destruct H].
      apply andb_true_iff in Hd as [Hd H3].
      apply andb_true_iff in Hd as [H1 H2].
      apply truthy_true in H1, H2. apply bool_decide_eq_true in H3.
      destruct H as [H | []]. inversion H; subst. repeat split; assumption.
  - intros (-> & -> & -> & H1 & H2 & H3). right.
    apply truthy_true in H1, H2. rewrite H1, H2.
    rewrite bool_decide_eq_true_2 by exact H3. left. reflexivity.
Qed.

(** C3: the records of [compare_function_parameters]. One count record
    with the two lengths when they differ, none otherwise; a type record
    at exactly the indices of the overlapping prefix where the types
    differ; one added record per parameter of the new list past the old
    length and one removed record per parameter of the old list past the
    new length, in source order; the count record first, the records of
    the prefix next, the added and removed ones last. The two diffs of the
    specification come out as stated. *)
Theorem positional_parameter_diff (old_params new_params : list Param) :
  let r := compare_function_parameters old_params new_params in
  List.filter is_count_change r
  = (if bool_decide (length old_params = length new_params) then []
     else [param_count_change (length old_params) (length new_params)])
  ∧ (∀ i ot nt nm,
       param_type_change i ot nt nm ∈ r
       ↔ ∃ o n, old_params !! i = Some o ∧ new_params !! i = Some n
                ∧ ot = p_type o ∧ nt = p_type n ∧ nm = p_name n
                ∧ p_type o ≠ p_type n)
  ∧ List.filter is_added r
    = imap (λ k p, param_added (length old_params + k)%nat (p_full p))
        (drop (length old_params) new_params)
  ∧ List.filter is_removed r
    = imap (λ k p, param_removed (length new_params + k)%nat (p_full p))
        (drop (length new_params) old_params)
  ∧ (∃ pre,
       r = List.filter is_count_change r ++ pre
           ++ List.filter is_added r ++ List.filter is_removed r
       ∧ Forall (in_prefix (Nat.min (length old_params) (length new_params)))
           pre)
  ∧ compare_function_parameters
      [mkParam "int" "a" "int a"]
      [mkParam "int" "a" "int a"; mkParam "int" "b" "int b"]
    = [param_count_change 1 2; param_added 1 "int b"]
  ∧ compare_function_parameters
      [mkParam "int" "a" "int a"] [mkParam "long" "a" "long a"]
    = [param_type_change 0 "int" "long" "a"].
Proof.
  intros r. subst r.
  destruct (filter_blocks old_params new_params) as (Hc & Ha & Hr).
  split_and!.
  - rewrite Hc. unfold count_block.
    destruct (decide (length old_params = length new_params)) as [He | He].
    + rewrite bool_decide_eq_false_2 by tauto.
      rewrite bool_decide_eq_true_2 by exact He. reflexivity.
    + rewrite bool_decide_eq_true_2 by exact He.
      rewrite bool_decide_eq_false_2 by exact He. reflexivity.
  - intros i ot nt nm. rewrite prefix_record_spec by reflexivity. split.
    + intros (j & o & n & Ho & Hn & Hin).
      apply compare_at_type in Hin. destruct Hin as (-> & Hrest).
      exists o, n. auto.
    + intros (o & n & Ho & Hn & Hrest).
      exists i, o, n. rewrite compare_at_type. auto.
  - rewrite Ha. apply added_block_drop.
  - rewrite Hr. apply removed_block_drop.
  - exists (prefix_block old_params new_params). split.
    + rewrite Hc, Ha, Hr. apply compare_blocks.
    + apply prefix_block_in_prefix.
  - reflexivity.
  - reflexivity.
Qed.

(** C4, as stated, fails: [int a] against [long b] gives a name record
    next to the type record. *)
Lemma name_change_with_type_change :
  ¬ name_change_requires_equal_types
      [mkParam "int" "a" "int a"] [mkParam "long" "b" "long b"].
Proof.
  intros H.
  destruct (H 0%nat (mkParam "int" "a" "int a") (mkParam "long" "b" "long b")
              eq_refl eq_refl) as [H1 _].
  destruct (H1 "a" "b") as [Heq _]; [|discriminate].
  vm_compute. apply list_elem_of_In. right. left. reflexivity.
Qed.

(** C4, amended: at an index of the overlapping prefix the name record is
    emitted exactly when both names are non-empty and differ, whatever the
    types; the type record is emitted exactly when the types differ. *)
Theorem name_change_whatever_types (old_params new_params : list Param)
    (i : nat) (o n : Param) :
  old_params !! i = Some o -> new_params !! i = Some n ->
  let r := compare_function_parameters old_params new_params in
  (∀ on nn,
     param_name_change i on nn ∈ r
     ↔ on = p_name o ∧ nn = p_name n
       ∧ p_name o ≠ "" ∧ p_name n ≠ "" ∧ p_name o ≠ p_name n)
  ∧ (∀ ot nt nm,
       param_type_change i ot nt nm ∈ r
       ↔ ot = p_type o ∧ nt = p_type n ∧ nm = p_name n
         ∧ p_type o ≠ p_type n).
Proof.
  intros Ho Hn r. subst r. split.
  - intros on nn. rewrite prefix_record_spec by reflexivity. split.
    + intros (j & o' & n' & Ho' & Hn' & Hin).
      apply compare_at_name in Hin. destruct Hin as (-> & Hrest).
      rewrite Ho in Ho'. rewrite Hn in Hn'.
      inversion Ho'; inversion Hn'; subst. exact Hrest.
    + intros Hrest. exists i, o, n. rewrite compare_at_name. auto.
  - intros ot nt nm. rewrite prefix_record_spec by reflexivity. split.
    + intros (j & o' & n' & Ho' & Hn' & Hin).
      apply compare_at_type in Hin. destruct Hin as (-> & Hrest).
      rewrite Ho in Ho'. rewrite Hn in Hn'.
      inversion Ho'; inversion Hn'; subst. exact Hrest.
    + intros Hrest. exists i, o, n. rewrite compare_at_type. auto.
Qed.

Lemma name_change_whatever_types_witness :
  let r := compare_function_parameters
             [mkParam "int" "a" "int a"] [mkParam "long" "b" "long b"] in
  param_name_change 0 "a" "b" ∈ r ∧ param_type_change 0 "int" "long" "b" ∈ r.
Proof.
  destruct (name_change_whatever_types
              [mkParam "int" "a" "int a"] [mkParam "long" "b" "long b"]
              0%nat (mkParam "int" "a" "int a") (mkParam "long" "b" "long b")
              eq_refl eq_refl) as [Hname Htype].
  split.
  - apply Hname. simpl. repeat split; discriminate.
  - apply Htype. simpl. repeat split; discriminate.
Defined.

(** ** The return-type flag *)

Lemma append_assoc (a b c : string) : (a +:+ b) +:+ c = a +:+ b +:+ c.
Proof. induction a as [|x a IH]; simpl; [reflexivity | f_equal; exact IH]. Qed.

Lemma append_empty_r (a : string) : a +:+ "" = a.
Proof. induction a as [|x a IH]; simpl; [reflexivity | f_equal; exact IH]. Qed.

Lemma has_char_append (ch : ascii) (a b : string) :
  Py.has_char ch (a +:+ b) = Py.has_char ch a || Py.has_char ch b.
Proof.
  induction a as [|x a IH]; simpl; [reflexivity|].
  rewrite IH, orb_assoc. reflexivity.
Qed.

Lemma all_space_no_paren (ws : string) :
  all_space ws = true -> Py.has_char "(" ws = false.
Proof.
  induction ws as [|c ws IH]; simpl; [reflexivity|].
  intros H. apply andb_true_iff in H as [Hc Hws]. rewrite (IH Hws).
  destruct (Ascii.eqb_spec c "("); [subst; discriminate | reflexivity].
Qed.

Lemma split_char_head (sep : ascii) (a rest : string) :
  Py.has_char sep a = false ->
  index_first (Py.split_char sep (a +:+ String sep rest)) = Ok a.
Proof.
  induction a as [|c a IH]; simpl.
  - intros _. rewrite Ascii.eqb_refl. reflexivity.
  - intros H. apply orb_false_iff in H as [Hc Ha]. rewrite Hc.
    specialize (IH Ha).
    destruct (Py.split_char sep (a +:+ String sep rest)) as [|w ws];
      simpl in *; [discriminate|].
    congruence.
Qed.

Lemma split_ws_lstrip (s : string) :
  Py.split_ws (Py.lstrip s) = Py.split_ws s.
Proof.
  unfold Py.split_ws. induction s as [|c s IH]; simpl; [reflexivity|].
  destruct (Py.isspace c) eqn:Hc; [exact IH|].
  simpl. rewrite Hc. reflexivity.
Qed.

Lemma split_ws_rstrip (s cur : string) :
  Py.split_ws_from cur (Py.rstrip s) = Py.split_ws_from cur s.
Proof.
  revert cur. induction s as [|c s IH]; intros cur; simpl; [reflexivity|].
  destruct (Py.rstrip s) as [|d r] eqn:Hr.
  - destruct (Py.isspace c) eqn:Hc; simpl.
    + rewrite <- (IH ""). simpl. reflexivity.
    + rewrite Hc. rewrite <- IH. reflexivity.
  - destruct (Py.isspace c) eqn:Hc.
    + rewrite <- (IH ""). simpl. rewrite Hc. reflexivity.
    + rewrite <- IH. simpl. rewrite Hc. reflexivity.
Qed.

Lemma split_ws_strip (s : string) : Py.split_ws (Py.strip s) = Py.split_ws s.
Proof.
  unfold Py.strip, Py.split_ws. rewrite split_ws_rstrip.
  apply split_ws_lstrip.
Qed.

Lemma split_ws_from_space (cur a b : string) (c : ascii) :
  Py.isspace c = true ->
  Py.split_ws_from cur (a +:+ String c b)
  = Py.split_ws_from cur (a +:+ String c "") ++ Py.split_ws_from "" b.
Proof.
  intros Hc. revert cur. induction a as [|d a IH]; intros cur; simpl.
  - rewrite Hc. destruct cur; reflexivity.
  - destruct (Py.isspace d).
    + destruct cur; rewrite IH; reflexivity.
    + apply IH.
Qed.

Lemma split_ws_from_token (cur tok s : string) :
  Py.any_space tok = false ->
  Py.split_ws_from cur (tok +:+ s) = Py.split_ws_from (cur +:+ tok) s.
Proof.
  revert cur. induction tok as [|c tok IH]; intros cur; simpl.
  - intros _. rewrite append_empty_r. reflexivity.
  - intros H. apply orb_false_iff in H as [Hc Htok]. rewrite Hc.
    rewrite (IH _ Htok), append_assoc. reflexivity.
Qed.

Lemma split_ws_from_spaces (cur ws : string) :
  all_space ws = true ->
  Py.split_ws_from cur ws = match cur with "" => [] | _ => [cur] end.
Proof.
  revert cur. induction ws as [|c ws IH]; intros cur; simpl; [reflexivity|].
  intros H. apply andb_true_iff in H as [Hc Hws]. rewrite Hc.
  destruct cur; rewrite (IH _ Hws); reflexivity.
Qed.

Lemma index_last_app {A : Type} (xs : list A) (x : A) :
  index_last (xs ++ [x]) = Ok x.
Proof.
  induction xs as [|y xs IH]; simpl; [reflexivity|].
  destruct (xs ++ [x]) eqn:E; [destruct xs; discriminate | exact IH].
Qed.

(** The expression of the source gives the token of the definition. *)
Lemma return_token_spec (sig tok : string) :
  last_token_before_paren sig tok -> return_token sig = Ok tok.
Proof.
  intros (pre & ws & rest & -> & Hpre & Htok & Hne & Hnsp & Hws & Hend).
  unfold return_token.
  rewrite <- !append_assoc, split_char_head.
  2:{ rewrite !has_char_append, Hpre, Htok, (all_space_no_paren ws Hws).
      reflexivity. }
  simpl. rewrite split_ws_strip. unfold Py.split_ws.
  assert (Hlast : Py.split_ws_from "" (tok +:+ ws) = [tok]).
  { rewrite (split_ws_from_token _ _ _ Hnsp). simpl.
    rewrite (split_ws_from_spaces _ _ Hws). destruct tok; congruence. }
  destruct Hend as [-> | (pre' & c & -> & Hc)].
  - simpl. rewrite Hlast. reflexivity.
  - rewrite !append_assoc. simpl.
    rewrite (split_ws_from_space _ _ _ _ Hc), Hlast.
    apply index_last_app.
Qed.

Lemma last_token_typed_header (ret fname rest : string) :
  name_token fname -> Py.has_char "(" ret = false ->
  last_token_before_paren (typed_header ret fname rest) fname.
Proof.
  intros (Hne & Hns & Hnp) Hret. exists (ret +:+ " "), "", rest.
  split_and!; try assumption; try reflexivity.
  - unfold typed_header. rewrite append_assoc. reflexivity.
  - rewrite has_char_append, Hret. reflexivity.
  - right. exists ret, " "%char. split; reflexivity.
Qed.

(** C7, as stated, fails in its second sentence: [int foo(int a)] and
    [__typeof__(int) foo(int a)] both have a token before their first
    opening parenthesis and differ in the return type alone, and the flag
    is set, since the first parenthesis of the second header comes before
    the function name. *)
Lemma return_type_with_parenthesis_sets_flag :
  last_token_before_paren (typed_header "int" "foo" "int a)") "foo"
  ∧ last_token_before_paren (typed_header "__typeof__(int)" "foo" "int a)")
      "__typeof__"
  ∧ ¬ return_type_alone_keeps_flag "int" "__typeof__(int)" "foo" "int a)".
Proof.
  split_and!.
  - apply last_token_typed_header; [|reflexivity].
    unfold name_token. split_and!; [discriminate | reflexivity | reflexivity].
  - exists "", "", "int) foo(int a)".
    split_and!; try reflexivity; try discriminate. left. reflexivity.
  - intros H.
    assert (Hname : name_token "foo")
      by (unfold name_token; split_and!;
          [discriminate | reflexivity | reflexivity]).
    specialize (H Hname "foo" sample_tag sample_tag).
    vm_compute in H. specialize (H _ eq_refl). discriminate.
Qed.

(** C7, amended: when both headers have a token before their first
    opening parenthesis, the record is emitted with the flag set exactly
    when the two tokens differ, and the two tokens are what it reports as
    return types; when moreover the headers are a return-type text
    without a parenthesis, a space, the same function name and the rest,
    that token is the function name and the flag is unset, whatever the
    two return-type texts. *)
Theorem return_flag_compares_last_token (name : string)
    (old_func new_func : TagInfo) (old_sig new_sig tok_old tok_new : string) :
  last_token_before_paren old_sig tok_old ->
  last_token_before_paren new_sig tok_new ->
  old_sig ≠ new_sig ->
  ∃ r, modified_function name old_func new_func old_sig new_sig = Ok (Some r)
       ∧ old_return_type r = tok_old ∧ new_return_type r = tok_new
       ∧ (return_type_changed r = true ↔ tok_old ≠ tok_new)
       ∧ (∀ ret_old ret_new fname rest_old rest_new,
            old_sig = typed_header ret_old fname rest_old ->
            new_sig = typed_header ret_new fname rest_new ->
            name_token fname ->
            Py.has_char "(" ret_old = false ->
            Py.has_char "(" ret_new = false ->
            return_type_changed r = false).
Proof.
  intros Hold Hnew Hne. unfold modified_function.
  rewrite bool_decide_eq_true_2 by exact Hne.
  pose proof (return_token_spec _ _ Hold) as Hto.
  pose proof (return_token_spec _ _ Hnew) as Htn.
  rewrite Hto, Htn. simpl.
  eexists. split; [reflexivity|]. simpl.
  split; [reflexivity|]. split; [reflexivity|].
  split; [apply bool_decide_eq_true|].
  intros ret_old ret_new fname rest_old rest_new Eo En Hname Hro Hrn.
  pose proof (return_token_spec _ _
                (last_token_typed_header ret_old fname rest_old Hname Hro))
    as Hfo.
  pose proof (return_token_spec _ _
                (last_token_typed_header ret_new fname rest_new Hname Hrn))
    as Hfn.
  rewrite <- Eo, Hto in Hfo. rewrite <- En, Htn in Hfn.
  inversion Hfo; inversion Hfn; subst tok_old tok_new.
  apply bool_decide_eq_false_2. intros H. apply H. reflexivity.
Qed.

Lemma return_flag_compares_last_token_witness :
  ∃ r, modified_function "foo" sample_tag sample_tag
         "int foo(int a)" "long foo(int a)" = Ok (Some r)
       ∧ old_return_type r = "foo" ∧ new_return_type r = "foo"
       ∧ return_type_changed r = false.
Proof.
  destruct (return_flag_compares_last_token "foo" sample_tag sample_tag
              "int foo(int a)" "long foo(int a)" "foo" "foo")
    as (r & Hr & Hold & Hnew & Hflag & Hsame).
  - exists "int ", "", "int a)".
    split_and!; try reflexivity; try discriminate.
    right. exists "int", " "%char. split; reflexivity.
  - exists "long ", "", "int a)".
    split_and!; try reflexivity; try discriminate.
    right. exists "long", " "%char. split; reflexivity.
  - discriminate.
  - exists r. split_and!; try assumption.
    apply (Hsame "int" "long" "foo" "int a)" "int a)");
      try reflexivity.
    unfold name_token. split_and!; [discriminate | reflexivity | reflexivity].
Defined.

(** * Further properties of the modelled code *)

(** ** Whitespace and prefixes *)

Lemma rstrip_rstrip (s : string) : Py.rstrip (Py.rstrip s) = Py.rstrip s.
Proof.
  induction s as [|c s IH]; simpl; [reflexivity|].
  destruct (Py.rstrip s) as [|d r] eqn:Hr.
  - destruct (Py.isspace c) eqn:Hc; simpl; [reflexivity|].
    rewrite Hc. reflexivity.
  - change (Py.rstrip (String c (String d r)))
      with (match Py.rstrip (String d r) with
            | EmptyString =>
                if Py.isspace c then EmptyString else String c EmptyString
            | r' => String c r'
            end).
    rewrite IH. reflexivity.
Qed.

Lemma lstrip_starts_clean (s : string) : starts_clean (Py.lstrip s) = true.
Proof.
  induction s as [|c s IH]; simpl; [reflexivity|].
  destruct (Py.isspace c) eqn:Hc; [exact IH|]. simpl. rewrite Hc. reflexivity.
Qed.

Lemma rstrip_starts_clean (s : string) :
  starts_clean s = true -> starts_clean (Py.rstrip s) = true.
Proof.
  destruct s as [|c s]; simpl; [reflexivity|]. intros Hc.
  destruct (Py.rstrip s); [|exact Hc].
  destruct (Py.isspace c) eqn:E; [discriminate | simpl; rewrite E; reflexivity].
Qed.

Lemma lstrip_clean (s : string) : starts_clean s = true -> Py.lstrip s = s.
Proof.
  destruct s as [|c s]; simpl; [reflexivity|]. intros Hc.
  apply negb_true_iff in Hc. rewrite Hc. reflexivity.
Qed.

Lemma strip_strip (s : string) : Py.strip (Py.strip s) = Py.strip s.
Proof.
  unfold Py.strip.
  rewrite (lstrip_clean (Py.rstrip (Py.lstrip s)))
    by apply rstrip_starts_clean, lstrip_starts_clean.
  apply rstrip_rstrip.
Qed.

Lemma lstrip_suffix (s : string) : ∃ a, s = a +:+ Py.lstrip s.
Proof.
  induction s as [|c s [a IH]]; simpl; [exists ""; reflexivity|].
  destruct (Py.isspace c).
  - exists (String c a). simpl. f_equal. exact IH.
  - exists "". reflexivity.
Qed.

Lemma rstrip_prefix (s : string) : ∃ b, s = Py.rstrip s +:+ b.
Proof.
  induction s as [|c s [b IH]]; simpl; [exists ""; reflexivity|].
  destruct (Py.rstrip s) as [|d r].
  - destruct (Py.isspace c).
    + exists (String c s). reflexivity.
    + exists s. reflexivity.
  - exists b. simpl in *. f_equal. exact IH.
Qed.

Lemma strip_infix (s : string) : ∃ a b, s = a +:+ Py.strip s +:+ b.
Proof.
  unfold Py.strip.
  destruct (lstrip_suffix s) as [a Ha].
  destruct (rstrip_prefix (Py.lstrip s)) as [b Hb].
  exists a, b. rewrite <- Hb. exact Ha.
Qed.

Lemma has_char_strip (ch : ascii) (s : string) :
  Py.has_char ch s = false -> Py.has_char ch (Py.strip s) = false.
Proof.
  destruct (strip_infix s) as (a & b & Hs). intros H.
  rewrite Hs, !has_char_append in H.
  apply orb_false_iff in H as [_ H]. apply orb_false_iff in H as [H _].
  exact H.
Qed.

Lemma split_char_first (sep : ascii) (s : string) :
  ∃ h rest, index_first (Py.split_char sep s) = Ok h
            ∧ s = h +:+ rest ∧ Py.has_char sep h = false.
Proof.
  induction s as [|c s (h & rest & Hh & Hs & Hn)]; simpl.
  - exists "", "". auto.
  - destruct (Ascii.eqb c sep) eqn:Hc.
    + exists "", (String c s). auto.
    + destruct (Py.split_char sep s) as [|w ws]; simpl in Hh; [discriminate|].
      inversion Hh; subst w.
      exists (String c h), rest. simpl. rewrite Hc, Hn.
      split_and!; [reflexivity | f_equal; exact Hs | reflexivity].
Qed.

Lemma ws_normal_append (a b : string) :
  ws_normal (a +:+ b) = true -> ws_normal a = true ∧ ws_normal b = true.
Proof.
  induction a as [|c a IH]; simpl; [auto|].
  intros H. apply andb_true_iff in H as [Hc Hab].
  destruct (IH Hab) as [Ha Hb]. split; [|exact Hb].
  rewrite Ha, andb_true_r.
  destruct (Py.isspace c); [|reflexivity].
  apply andb_true_iff in Hc as [Hc1 Hc2]. rewrite Hc1. simpl.
  destruct a; [reflexivity | exact Hc2].
Qed.

Lemma collapse_ws_cons (c : ascii) (s : string) :
  Py.isspace c = false ->
  Py.collapse_ws (String c s) = String c (Py.collapse_ws s).
Proof. intros Hc. simpl. rewrite Hc. reflexivity. Qed.

Lemma ws_normal_space_cons (c : ascii) (t : string) :
  Py.isspace c = false ->
  ws_normal (String " " (String c t)) = ws_normal (String c t).
Proof. intros Hc. simpl. rewrite Hc. reflexivity. Qed.

Lemma collapse_ws_normal (s : string) : ws_normal (Py.collapse_ws s) = true.
Proof.
  induction s as [|c s IH]; [reflexivity|].
  destruct (Py.isspace c) eqn:Hc.
  - destruct s as [|c' s'].
    + simpl. rewrite Hc. reflexivity.
    + destruct (Py.isspace c') eqn:Hc'.
      * replace (Py.collapse_ws (String c (String c' s')))
          with (Py.collapse_ws (String c' s'))
          by (simpl; rewrite Hc, Hc'; reflexivity).
        exact IH.
      * replace (Py.collapse_ws (String c (String c' s')))
          with (String " " (Py.collapse_ws (String c' s')))
          by (simpl; rewrite Hc, Hc'; reflexivity).
        rewrite (collapse_ws_cons _ _ Hc') in IH |- *.
        rewrite (ws_normal_space_cons _ _ Hc'). exact IH.
  - rewrite (collapse_ws_cons _ _ Hc). simpl. rewrite Hc. exact IH.
Qed.

Lemma collapse_ws_fixed (s : string) :
  ws_normal s = true -> Py.collapse_ws s = s.
Proof.
  induction s as [|c s IH]; simpl; [reflexivity|].
  intros H. apply andb_true_iff in H as [Hc Hs]. specialize (IH Hs).
  destruct (Py.isspace c) eqn:Hsp.
  - apply andb_true_iff in Hc as [Hc1 Hc2].
    apply Ascii.eqb_eq in Hc1. subst c.
    destruct s as [|c' s']; [reflexivity|].
    apply negb_true_iff in Hc2. rewrite Hc2. f_equal. exact IH.
  - f_equal. exact IH.
Qed.

(** ** Further properties of the extractors *)

(** X1: the text of [extract_function_signature] is a header in normal
    form: it has no opening brace, no whitespace at either end, and
    collapsing its whitespace again changes nothing. *)
Theorem extracted_signature_normal (readlines : string -> option (list string))
    (file_path function_name : string) (line_num : Z) :
  ∃ sig,
    extract_function_signature readlines file_path function_name line_num
    = Ok sig
    ∧ Py.has_char "{" sig = false
    ∧ Py.strip sig = sig
    ∧ Py.collapse_ws sig = sig.
Proof.
  unfold extract_function_signature, extract_function_signature_body.
  destruct (open_readlines readlines file_path) as [lines|]; simpl;
    [|exists ""; auto].
  destruct (scan_signature _ _ _) as [signature_lines|]; simpl;
    [|exists ""; auto].
  destruct (split_char_first "{" (Py.collapse_ws (Py.join " " signature_lines)))
    as (h & rest & Hh & Hs & Hn).
  rewrite Hh. simpl. exists (Py.strip h). split_and!.
  - reflexivity.
  - apply has_char_strip, Hn.
  - apply strip_strip.
  - apply collapse_ws_fixed.
    pose proof (collapse_ws_normal (Py.join " " signature_lines)) as Hnorm.
    rewrite Hs in Hnorm. apply ws_normal_append in Hnorm as [Hnorm _].
    destruct (strip_infix h) as (a & b & Hab). rewrite Hab in Hnorm.
    apply ws_normal_append in Hnorm as [_ Hnorm].
    apply ws_normal_append in Hnorm as [Hnorm _]. exact Hnorm.
Qed.

Lemma scan_signature_ext (lines1 lines2 : list string) (idxs : list nat)
    (acc : list string) :
  (∀ i, i ∈ idxs -> lines1 !! i = lines2 !! i) ->
  scan_signature lines1 idxs acc = scan_signature lines2 idxs acc.
Proof.
  revert acc. induction idxs as [|i idxs IH]; intros acc Hagree; simpl;
    [reflexivity|].
  unfold index_at. rewrite (Hagree i) by (left).
  destruct (lines2 !! i); simpl; [|reflexivity].
  destruct (Py.has_char "{" _); [reflexivity|].
  destruct (Py.has_char ";" _); [reflexivity|].
  apply IH. intros j Hj. apply Hagree. right. exact Hj.
Qed.

Lemma range_elem (a b : Z) (i : nat) :
  0 <= a -> i ∈ range a b -> a <= Z.of_nat i < b.
Proof.
  intros Ha Hi. unfold range in Hi.
  apply list_elem_of_In, in_seq in Hi. lia.
Qed.

(** Two files that agree on the window have the same end of scan. *)
Lemma window_stop (lines1 lines2 : list string) (a L : Z) :
  0 <= a ->
  (∀ i : nat, a <= Z.of_nat i < L -> lines1 !! i = lines2 !! i) ->
  range a (Z.min (len lines1) L) = range a (Z.min (len lines2) L).
Proof.
  intros Ha Hagree. unfold range.
  cut (Z.to_nat (Z.min (len lines1) L - a) = Z.to_nat (Z.min (len lines2) L - a));
    [intros ->; reflexivity|].
  assert (Hside : ∀ xs ys : list string,
            (∀ i : nat, a <= Z.of_nat i < L -> xs !! i = ys !! i) ->
            Z.max a (Z.min (len xs) L) <= Z.max a (Z.min (len ys) L)).
  { intros xs ys Hxy.
    destruct (Z_le_gt_dec (Z.max a (Z.min (len xs) L))
                (Z.max a (Z.min (len ys) L))) as [Hle | Hgt]; [exact Hle|].
    exfalso.
    set (m := Z.to_nat (Z.max a (Z.min (len ys) L))).
    assert (Hm : a <= Z.of_nat m < L) by (unfold len in *; lia).
    specialize (Hxy m Hm).
    assert (Hys : ys !! m = None)
      by (apply lookup_ge_None; unfold len in *; lia).
    assert (Hxs : is_Some (xs !! m))
      by (apply lookup_lt_is_Some; unfold len in *; lia).
    rewrite Hxy, Hys in Hxs. destruct Hxs as [x Hx]. discriminate. }
  pose proof (Hside lines1 lines2 Hagree) as H12.
  assert (H21 : Z.max a (Z.min (len lines2) L) <= Z.max a (Z.min (len lines1) L)).
  { apply Hside. intros i Hi. symmetry. apply Hagree, Hi. }
  unfold len in *. lia.
Qed.

(** X2: [extract_function_signature] reads only the lines of index
    [max(0, line_num - 1)] up to [line_num + 19]: two files that agree on
    them give the same text. *)
Theorem signature_window (readlines1 readlines2 : string -> option (list string))
    (path1 path2 name1 name2 : string) (lines1 lines2 : list string)
    (line_num : Z) :
  readlines1 path1 = Some lines1 ->
  readlines2 path2 = Some lines2 ->
  (∀ i : nat, Z.max 0 (line_num - 1) <= Z.of_nat i < line_num + 20 ->
     lines1 !! i = lines2 !! i) ->
  extract_function_signature readlines1 path1 name1 line_num
  = extract_function_signature readlines2 path2 name2 line_num.
Proof.
  intros H1 H2 Hagree.
  unfold extract_function_signature, extract_function_signature_body,
    open_readlines.
  rewrite H1, H2. simpl.
  rewrite (window_stop lines1 lines2 (Z.max 0 (line_num - 1)) (line_num + 20)
             (Z.le_max_l 0 (line_num - 1)) Hagree).
  rewrite (scan_signature_ext lines1 lines2); [reflexivity|].
  intros i Hi. apply range_elem in Hi; [|lia].
  apply Hagree. lia.
Qed.

Lemma signature_window_witness :
  extract_function_signature sample_tree "new/include/a.h" "foo" 2
  = extract_function_signature sample_tree_recommented "new/include/a.h"
      "foo" 2.
Proof.
  eapply (signature_window sample_tree sample_tree_recommented
            "new/include/a.h" "new/include/a.h" "foo" "foo" _ _ 2).
  - reflexivity.
  - reflexivity.
  - intros [|i] Hi; [lia | reflexivity].
Defined.

Lemma scan_fields_inv (struct_name : string) (lines : list string)
    (idxs : list nat) (fields : list string) (in_struct : bool)
    (brace_count : Z) (r : list string) :
  Forall field_text fields ->
  scan_fields struct_name lines idxs fields in_struct brace_count = Ok r ->
  Forall field_text r.
Proof.
  revert fields in_struct brace_count.
  induction idxs as [|i idxs IH]; intros fields in_struct brace_count Hf;
    simpl.
  - intros H. inversion H; subst. exact Hf.
  - destruct (index_at lines i) as [raw|]; simpl; [|discriminate].
    destruct (_ && _ && _); [apply IH, Hf|].
    destruct in_struct; [|apply IH, Hf].
    destruct (_ =? 0); [intros H; inversion H; subst; exact Hf|].
    destruct (Py.has_char ";" (Py.strip raw) && _); [|apply IH, Hf].
    destruct (split_char_first ";" (Py.strip raw)) as (h & rest & Hh & _ & Hn).
    rewrite Hh. simpl.
    destruct (truthy (Py.strip h) && negb (Py.startswith "/*" (Py.strip h)))
      eqn:Hkeep; [|apply IH, Hf].
    apply IH. apply Forall_app. split; [exact Hf|].
    constructor; [|constructor].
    apply andb_true_iff in Hkeep as [Ht Hs].
    apply negb_true_iff in Hs. apply truthy_true in Ht.
    split_and!; [exact Ht | apply has_char_strip, Hn | apply strip_strip
                | exact Hs].
Qed.

(** X3: every field text that [extract_struct_fields] returns is not
    empty, has no semicolon, has no whitespace at either end and does not
    start a block comment. *)
Theorem extracted_fields_clean (readlines : string -> option (list string))
    (file_path struct_name : string) (line_num : Z) :
  ∃ fields,
    extract_struct_fields readlines file_path struct_name line_num = Ok fields
    ∧ Forall field_text fields.
Proof.
  unfold extract_struct_fields, extract_struct_fields_body.
  destruct (open_readlines readlines file_path) as [lines|]; simpl;
    [|exists []; auto].
  destruct (scan_fields _ _ _ _ _ _) as [r|] eqn:Hscan; simpl;
    [|exists []; auto].
  exists r. split; [reflexivity|].
  eapply scan_fields_inv; [|exact Hscan]. constructor.
Qed.

Lemma scan_fields_closed (struct_name : string) (lines : list string)
    (idxs : list nat) (fields : list string) (brace_count : Z) :
  (∀ l, l ∈ lines -> opens_struct struct_name l = false) ->
  try_except (scan_fields struct_name lines idxs fields false brace_count)
    fields = Ok fields.
Proof.
  intros Hclosed. induction idxs as [|i idxs IH]; simpl; [reflexivity|].
  unfold index_at. destruct (lines !! i) as [raw|] eqn:Hraw; simpl;
    [|reflexivity].
  pose proof (Hclosed raw (list_elem_of_lookup_2 _ _ _ Hraw)) as Hno.
  unfold opens_struct in Hno. rewrite Hno. exact IH.
Qed.

(** X4: when no line of the file has the word [struct], the name and an
    opening brace together, [extract_struct_fields] gives the empty
    list. *)
Theorem struct_not_found_no_fields (readlines : string -> option (list string))
    (file_path struct_name : string) (line_num : Z) :
  (∀ lines l, readlines file_path = Some lines -> l ∈ lines ->
     opens_struct struct_name l = false) ->
  extract_struct_fields readlines file_path struct_name line_num = Ok [].
Proof.
  intros Hclosed.
  unfold extract_struct_fields, extract_struct_fields_body, open_readlines.
  destruct (readlines file_path) as [lines|] eqn:Hread; simpl; [|reflexivity].
  apply scan_fields_closed. intros l Hl. exact (Hclosed lines l eq_refl Hl).
Qed.

Lemma struct_not_found_no_fields_witness :
  extract_struct_fields sample_tree "new/include/a.h" "point" 1 = Ok [].
Proof.
  apply (struct_not_found_no_fields sample_tree "new/include/a.h" "point" 1).
  intros lines l Hread Hl. inversion Hread; subst lines. clear Hread.
  repeat (apply elem_of_cons in Hl as [-> | Hl]; [reflexivity|]).
  apply elem_of_nil in Hl. destruct Hl.
Defined.

(** ** Further properties of the parameter decomposer *)

Lemma until_close_none (s : string) :
  Py.has_char ")" s = false -> Py.until_close s = None.
Proof.
  induction s as [|c s IH]; simpl; [reflexivity|].
  intros H. apply orb_false_iff in H as [Hc Hs]. rewrite Hc.
  destruct (Ascii.eqb c "010"); [reflexivity|].
  rewrite (IH Hs). reflexivity.
Qed.

Lemma search_parens_no_open (s : string) :
  Py.has_char "(" s = false -> Py.search_parens s = None.
Proof.
  induction s as [|c s IH]; simpl; [reflexivity|].
  intros H. apply orb_false_iff in H as [Hc Hs]. rewrite Hc. exact (IH Hs).
Qed.

Lemma search_parens_no_close (s : string) :
  Py.has_char ")" s = false -> Py.search_parens s = None.
Proof.
  induction s as [|c s IH]; simpl; [reflexivity|].
  intros H. apply orb_false_iff in H as [Hc Hs].
  rewrite (until_close_none s Hs), (IH Hs).
  destruct (Ascii.eqb c "("); reflexivity.
Qed.

(** X5: a header without an opening or without a closing parenthesis,
    the empty text among them, has no parameters. *)
Theorem no_parentheses_no_parameters (signature : string) :
  Py.has_char "(" signature = false ∨ Py.has_char ")" signature = false ->
  parse_function_parameters signature = [].
Proof.
  intros [H | H]; unfold parse_function_parameters.
  - rewrite (search_parens_no_open _ H). reflexivity.
  - rewrite (search_parens_no_close _ H). reflexivity.
Qed.

Lemma no_parentheses_no_parameters_witness :
  parse_function_parameters "" = []
  ∧ parse_function_parameters "struct list_head" = [].
Proof.
  split.
  - apply (no_parentheses_no_parameters ""). left. reflexivity.
  - apply (no_parentheses_no_parameters "struct list_head"). right.
    reflexivity.
Defined.





Lemma rstrip_no_space (s : string) :
  Py.any_space s = false -> Py.rstrip s = s.
Proof.
  induction s as [|c s IH]; simpl; [reflexivity|].
  intros H. apply orb_false_iff in H as [Hc Hs]. rewrite (IH Hs), Hc.
  destruct s; reflexivity.
Qed.

Lemma lstrip_no_space (s : string) :
  Py.any_space s = false -> Py.lstrip s = s.
Proof.
  destruct s as [|c s]; simpl; [reflexivity|].
  intros H. apply orb_false_iff in H as [Hc _]. rewrite Hc. reflexivity.
Qed.

Lemma strip_no_space (s : string) : Py.any_space s = false -> Py.strip s = s.
Proof.
  intros H. unfold Py.strip. rewrite (lstrip_no_space _ H).
  apply rstrip_no_space, H.
Qed.

Lemma no_space_ws_normal (s : string) :
  Py.any_space s = false -> ws_normal s = true.
Proof.
  induction s as [|c s IH]; simpl; [reflexivity|].
  intros H. apply orb_false_iff in H as [Hc Hs]. rewrite Hc, (IH Hs).
  reflexivity.
Qed.

Lemma cut_last_space_no_space (s : string) :
  Py.any_space s = false -> Py.cut_last_space s = ("", s).
Proof.
  destruct s as [|c s]; simpl; [reflexivity|].
  intros H. apply orb_false_iff in H as [Hc Hs]. rewrite Hs, Hc. reflexivity.
Qed.

(** X7: a fragment that is one token (no whitespace), such as [...] or an
    abstract type, becomes a parameter whose type is the token and whose
    name is empty. *)
Theorem single_token_is_type (tok : string) :
  tok ≠ "" -> Py.any_space tok = false ->
  _parse_single_param tok = mkParam tok "" tok.
Proof.
  intros Hne Hns. unfold _parse_single_param.
  rewrite (strip_no_space _ Hns).
  rewrite (collapse_ws_fixed _ (no_space_ws_normal _ Hns)).
  unfold Py.rsplit1. rewrite (rstrip_no_space _ Hns).
  destruct tok as [|c tok]; [congruence|].
  rewrite (cut_last_space_no_space _ Hns). simpl Py.rstrip.
  cbv iota beta. rewrite (strip_no_space _ Hns). reflexivity.
Qed.

Lemma single_token_is_type_witness :
  _parse_single_param "..." = mkParam "..." "" "...".
Proof.
  apply (single_token_is_type "..."); [discriminate | reflexivity].
Defined.

Lemma cut_last_space_snd (s : string) :
  Py.any_space (Py.cut_last_space s).2 = false.
Proof.
  induction s as [|c s IH]; simpl; [reflexivity|].
  destruct (Py.any_space s) eqn:Hs.
  - destruct (Py.cut_last_space s) as [h k]. exact IH.
  - destruct (Py.isspace c) eqn:Hc; simpl; [exact Hs|].
    rewrite Hc, Hs. reflexivity.
Qed.

Lemma rsplit1_last_no_space (s h k : string) :
  Py.rsplit1 s = [h; k] -> Py.any_space k = false.
Proof.
  unfold Py.rsplit1. destruct (Py.rstrip s) as [|c r]; [discriminate|].
  pose proof (cut_last_space_snd (String c r)) as Hk.
  destruct (Py.cut_last_space (String c r)) as [h0 k0].
  destruct (Py.rstrip h0); intros H; inversion H; subst. exact Hk.
Qed.

Lemma lstrip_char_no_space (ch : ascii) (s : string) :
  Py.any_space s = false -> Py.any_space (Py.lstrip_char ch s) = false.
Proof.
  induction s as [|c s IH]; simpl; [reflexivity|].
  intros H. destruct (Ascii.eqb c ch).
  - apply orb_false_iff in H as [_ Hs]. exact (IH Hs).
  - exact H.
Qed.

Lemma startswith_char (ch : ascii) (s : string) :
  Py.startswith (String ch "") s
  = match s with String c _ => Ascii.eqb c ch | EmptyString => false end.
Proof.
  destruct s as [|c s]; [reflexivity|].
  unfold Py.startswith. simpl.
  destruct (Ascii.ascii_dec ch c) as [-> | Hne].
  - rewrite Ascii.eqb_refl. destruct s; reflexivity.
  - symmetry. apply Ascii.eqb_neq. congruence.
Qed.

Lemma lstrip_char_startswith (ch : ascii) (s : string) :
  Py.startswith (String ch "") (Py.lstrip_char ch s) = false.
Proof.
  induction s as [|c s IH]; simpl; [reflexivity|].
  destruct (Ascii.eqb c ch) eqn:Hc; [exact IH|].
  rewrite startswith_char. exact Hc.
Qed.

(** X8: whatever the fragment, the name that [_parse_single_param] gives
    does not start with an asterisk and has no whitespace. *)
Theorem parameter_name_clean (param : string) :
  Py.startswith "*" (p_name (_parse_single_param param)) = false
  ∧ Py.any_space (p_name (_parse_single_param param)) = false.
Proof.
  unfold _parse_single_param.
  destruct (Py.rsplit1 _) as [|h [|k [|x xs]]] eqn:Hsplit;
    try (split; reflexivity).
  apply rsplit1_last_no_space in Hsplit.
  destruct (Py.startswith "*" k) eqn:Hstar; simpl.
  - pose proof (lstrip_char_no_space "*" k Hsplit) as Hns.
    rewrite (strip_no_space _ Hns). split; [|exact Hns].
    apply lstrip_char_startswith.
  - rewrite (strip_no_space _ Hsplit). split; assumption.
Qed.

Lemma collapse_ws_empty (s : string) : Py.collapse_ws s = "" -> s = "".
Proof.
  induction s as [|c s IH]; [reflexivity|]. simpl.
  destruct (Py.isspace c); [|discriminate].
  destruct s as [|c' s']; [discriminate|].
  destruct (Py.isspace c'); [|discriminate].
  intros H. specialize (IH H). discriminate.
Qed.

Lemma parse_single_full (param : string) :
  p_full (_parse_single_param param) = Py.collapse_ws (Py.strip param).
Proof.
  unfold _parse_single_param.
  destruct (Py.rsplit1 _) as [|h [|k [|x xs]]]; try reflexivity.
  destruct (Py.startswith "*" k); reflexivity.
Qed.

Lemma split_step_full (st : SplitState) (char : ascii) :
  Forall (λ p, p_full p ≠ "") (params st) ->
  Forall (λ p, p_full p ≠ "") (params (split_step st char)).
Proof.
  intros Hst. unfold split_step.
  destruct (Ascii.eqb char "," && (depth st =? 0)); simpl; [|exact Hst].
  destruct (truthy (Py.strip (current_param st))) eqn:Ht; [|exact Hst].
  apply Forall_app. split; [exact Hst|]. constructor; [|constructor].
  rewrite parse_single_full, strip_strip. intros Hempty.
  apply collapse_ws_empty in Hempty. apply truthy_true in Ht. congruence.
Qed.

Lemma fold_split_step_full (chars : list ascii) (st : SplitState) :
  Forall (λ p, p_full p ≠ "") (params st) ->
  Forall (λ p, p_full p ≠ "") (params (fold_left split_step chars st)).
Proof.
  revert st. induction chars as [|c chars IH]; intros st Hst; simpl;
    [exact Hst|].
  apply IH, split_step_full, Hst.
Qed.

(** X9: no parameter of [parse_function_parameters] has an empty text:
    an empty fragment, such as the one after a trailing comma, gives no
    record. *)
Theorem parameters_not_empty (signature : string) :
  Forall (λ p, p_full p ≠ "") (parse_function_parameters signature).
Proof.
  unfold parse_function_parameters.
  destruct (Py.search_parens signature); [|constructor].
  destruct (_ || _); [constructor|].
  apply fold_split_step_full. constructor.
Qed.

(** ** Further properties of the two diffs *)

Lemma nil_iff_no_elem {A : Type} (xs : list A) : xs = [] ↔ ∀ x, ¬ In x xs.
Proof.
  split; [intros -> x []|].
  destruct xs as [|x xs]; [reflexivity|]. intros H.
  destruct (H x). left. reflexivity.
Qed.

Lemma compare_at_nil (i : nat) (o n : Param) :
  compare_at i o n = []
  ↔ p_type o = p_type n
    ∧ (p_name o = "" ∨ p_name n = "" ∨ p_name o = p_name n).
Proof.
  unfold compare_at. split.
  - intros H. apply app_eq_nil in H as [H1 H2].
    destruct (decide (p_type o = p_type n)) as [Ht | Ht];
      [|rewrite (bool_decide_eq_true_2 _ Ht) in H1; discriminate].
    split; [exact Ht|].
    destruct (p_name o) as [|a s]; [auto|].
    destruct (p_name n) as [|b t]; [auto|].
    right. right.
    destruct (decide (String a s = String b t)) as [He | He]; [exact He|].
    simpl in H2. rewrite (bool_decide_eq_true_2 _ He) in H2.
    discriminate.
  - intros [Ht Hn].
    rewrite bool_decide_eq_false_2 by (intros H; apply H, Ht). simpl.
    destruct Hn as [-> | [-> | Hn]]; simpl; [reflexivity | |].
    + rewrite andb_false_r. reflexivity.
    + rewrite (bool_decide_eq_false_2 _ (λ H, H Hn)), andb_false_r.
      reflexivity.
Qed.

(** X10: [compare_function_parameters] gives no record at all exactly
    when the two lists have the same length and, at every index, the types
    are equal and the names are equal or one of them is empty. *)
Theorem no_parameter_change_iff (old_params new_params : list Param) :
  compare_function_parameters old_params new_params = []
  ↔ length old_params = length new_params
    ∧ ∀ i o n, old_params !! i = Some o -> new_params !! i = Some n ->
        p_type o = p_type n
        ∧ (p_name o = "" ∨ p_name n = "" ∨ p_name o = p_name n).
Proof.
  rewrite compare_blocks. split.
  - intros H. apply app_eq_nil in H as [Hc H].
    apply app_eq_nil in H as [Hp _]. split.
    + unfold count_block in Hc.
      destruct (decide (length old_params = length new_params)) as [He | He];
        [exact He|].
      rewrite (bool_decide_eq_true_2 _ He) in Hc. discriminate.
    + intros i o n Ho Hn. apply (compare_at_nil i).
      apply nil_iff_no_elem. intros c Hc'.
      assert (Hin : In c (prefix_block old_params new_params))
        by (apply prefix_block_spec; exists i, o, n; auto).
      rewrite Hp in Hin. destruct Hin.
  - intros [Hlen Hall].
    assert (Hc : count_block old_params new_params = []).
    { unfold count_block.
      rewrite bool_decide_eq_false_2 by (intros H; apply H, Hlen).
      reflexivity. }
    assert (Hp : prefix_block old_params new_params = []).
    { apply nil_iff_no_elem. intros c Hin.
      apply prefix_block_spec in Hin as (i & o & n & Ho & Hn & Hin).
      rewrite (proj2 (compare_at_nil i o n) (Hall i o n Ho Hn)) in Hin.
      destruct Hin. }
    rewrite Hc, Hp, added_block_drop, removed_block_drop.
    rewrite !drop_ge by lia. reflexivity.
Qed.

Lemma elements_difference_nil (xs ys : list string) :
  elements ((list_to_set xs : gset string) ∖ list_to_set ys) = []
  ↔ ∀ x, x ∈ xs -> x ∈ ys.
Proof.
  rewrite nil_iff_no_elem. split.
  - intros H x Hx. destruct (decide (x ∈ ys)) as [Hy | Hy]; [exact Hy|].
    destruct (H x). apply list_elem_of_In, elements_difference_spec. auto.
  - intros H x Hx.
    apply list_elem_of_In, elements_difference_spec in Hx as [Hx Hy].
    apply Hy, H, Hx.
Qed.

Lemma same_fields_iff (old_fields new_fields : list string) :
  fc_added (compare_struct_fields old_fields new_fields) = []
  ∧ fc_removed (compare_struct_fields old_fields new_fields) = []
  ↔ ∀ x, x ∈ old_fields ↔ x ∈ new_fields.
Proof.
  simpl. rewrite !elements_difference_nil. split.
  - intros [Hn Ho] x. split; auto.
  - intros H. split; intros x Hx; apply H, Hx.
Qed.

(** X11: [compare_struct_fields] reports neither an added nor a removed
    field exactly when the two lists hold the same field texts, whatever
    their order and however often each occurs. *)
Theorem no_field_added_or_removed_iff (old_fields new_fields : list string) :
  fc_added (compare_struct_fields old_fields new_fields) = []
  ∧ fc_removed (compare_struct_fields old_fields new_fields) = []
  ↔ ∀ x, x ∈ old_fields ↔ x ∈ new_fields.
Proof. apply same_fields_iff. Qed.

(** X12: appending fields that the structure already has is not seen:
    the diff of [xs] against [xs ++ ys], where every field of [ys] occurs
    in [xs], has no added, no removed and no reordered entry. *)
Theorem repeated_fields_not_seen (xs ys : list string) :
  (∀ y, y ∈ ys -> y ∈ xs) ->
  compare_struct_fields xs (xs ++ ys) = mkFieldChanges [] [] [].
Proof.
  intros Hsub.
  assert (Hmod : fc_modified (compare_struct_fields xs (xs ++ ys)) = []).
  { apply nil_iff_no_elem. intros [i o n] Hin.
    apply list_elem_of_In, modified_spec in Hin
      as (Ho & Hn & Hne & _ & _).
    rewrite (lookup_app_l_Some _ _ _ _ Ho) in Hn. congruence. }
  assert (Hadd : fc_added (compare_struct_fields xs (xs ++ ys)) = []).
  { simpl. apply elements_difference_nil. intros x Hx.
    apply elem_of_app in Hx as [Hx | Hx]; [exact Hx | apply Hsub, Hx]. }
  assert (Hrem : fc_removed (compare_struct_fields xs (xs ++ ys)) = []).
  { simpl. apply elements_difference_nil. intros x Hx.
    apply elem_of_app. left. exact Hx. }
  destruct (compare_struct_fields xs (xs ++ ys)) as [a r m].
  simpl in *. subst. reflexivity.
Qed.

Lemma repeated_fields_not_seen_witness :
  compare_struct_fields ["int x"; "int y"] ["int x"; "int y"; "int x"]
  = mkFieldChanges [] [] [].
Proof.
  apply (repeated_fields_not_seen ["int x"; "int y"] ["int x"]).
  intros y Hy. apply list_elem_of_singleton in Hy. subst. left.
Defined.

(** ** Further properties of the analysis of one symbol *)

Lemma split_char_whole (sep : ascii) (s : string) :
  Py.has_char sep s = false -> index_first (Py.split_char sep s) = Ok s.
Proof.
  induction s as [|c s IH]; simpl; [reflexivity|].
  intros H. apply orb_false_iff in H as [Hc Hs]. rewrite Hc.
  specialize (IH Hs).
  destruct (Py.split_char sep s) as [|w ws]; simpl in *; congruence.
Qed.

Lemma split_char_first_rest (sep : ascii) (s : string) :
  ∃ h, index_first (Py.split_char sep s) = Ok h
       ∧ Py.has_char sep h = false
       ∧ (s = h ∨ ∃ rest, s = h +:+ String sep rest).
Proof.
  induction s as [|c s (h & Hh & Hn & Hs)]; simpl.
  - exists "". auto.
  - destruct (Ascii.eqb c sep) eqn:Hc.
    + apply Ascii.eqb_eq in Hc. subst c. exists "". split_and!; auto.
      right. exists s. reflexivity.
    + destruct (Py.split_char sep s) as [|w ws]; simpl in Hh; [discriminate|].
      inversion Hh; subst w.
      exists (String c h). simpl. rewrite Hc, Hn. split_and!; auto.
      destruct Hs as [-> | (rest & ->)]; [left | right; exists rest];
        reflexivity.
Qed.

Lemma split_ws_from_nil (cur s : string) :
  Py.split_ws_from cur s = [] ↔ cur = "" ∧ all_space s = true.
Proof.
  revert cur. induction s as [|c s IH]; intros cur; simpl.
  - destruct cur; split; try tauto; try discriminate.
    intros [H _]. discriminate.
  - destruct (Py.isspace c); simpl.
    + destruct cur; [apply IH|].
      split; [discriminate | intros [H _]; discriminate].
    + rewrite IH. split; [|intros [_ H]; discriminate].
      intros [H _]. destruct cur; discriminate.
Qed.

Lemma index_last_raise {A : Type} (xs : list A) (e : exn) :
  index_last xs = Raise e ↔ xs = [] ∧ e = IndexError.
Proof.
  induction xs as [|x xs IH]; simpl.
  - split; [intros H; inversion H; auto | intros [_ ->]; reflexivity].
  - destruct xs as [|y ys].
    + split; [discriminate | intros [H _]; discriminate].
    + rewrite IH. split; intros [H _]; discriminate.
Qed.

Lemma return_token_raise (sig : string) (e : exn) :
  return_token sig = Raise e ↔ blank_head sig ∧ e = IndexError.
Proof.
  unfold return_token.
  destruct (split_char_first_rest "(" sig) as (h & Hh & Hn & Hs).
  rewrite Hh. simpl. rewrite index_last_raise, split_ws_strip.
  unfold Py.split_ws. rewrite split_ws_from_nil. split.
  - intros [[_ Hws] ->]. split; [|reflexivity].
    exists h. destruct Hs as [-> | (rest & ->)].
    + exists "". auto.
    + exists rest. auto.
  - intros [(ws & rest & Hws & Hsig) ->]. split_and!; try reflexivity.
    assert (Hh' : index_first (Py.split_char "(" sig) = Ok ws).
    { destruct Hsig as [-> | ->].
      - apply split_char_whole, all_space_no_paren, Hws.
      - apply split_char_head, all_space_no_paren, Hws. }
    rewrite Hh in Hh'. inversion Hh'; subst. exact Hws.
Qed.

Lemma return_token_cases (sig : string) :
  (∃ tok, return_token sig = Ok tok) ∨ return_token sig = Raise IndexError.
Proof.
  destruct (return_token sig) as [tok | e] eqn:H; [left; eauto|].
  right. apply return_token_raise in H as [_ ->]. reflexivity.
Qed.

(** X13: the step of [_analyze_functions] for a function of both trees
    raises, and then with [IndexError], exactly when the two headers
    differ and one of them has only whitespace before its first opening
    parenthesis or is blank altogether. *)
Theorem modified_function_raises_iff (name : string)
    (old_func new_func : TagInfo) (old_sig new_sig : string) (e : exn) :
  modified_function name old_func new_func old_sig new_sig = Raise e
  ↔ e = IndexError ∧ old_sig ≠ new_sig
    ∧ (blank_head old_sig ∨ blank_head new_sig).
Proof.
  unfold modified_function.
  destruct (decide (old_sig = new_sig)) as [Heq | Hne].
  - rewrite bool_decide_eq_false_2 by (intros H; apply H, Heq).
    split; [discriminate | intros (_ & H & _); contradiction].
  - rewrite (bool_decide_eq_true_2 _ Hne).
    destruct (return_token old_sig) as [old_return | eo] eqn:Hold; simpl.
    + destruct (return_token new_sig) as [new_return | en] eqn:Hnew; simpl.
      * split; [discriminate|].
        intros (_ & _ & [Hb | Hb]).
        -- pose proof (proj2 (return_token_raise old_sig IndexError)
                         (conj Hb eq_refl)). congruence.
        -- pose proof (proj2 (return_token_raise new_sig IndexError)
                         (conj Hb eq_refl)). congruence.
      * apply return_token_raise in Hnew as [Hb ->].
        split; [intros H; inversion H; auto | intros (-> & _); reflexivity].
    + apply return_token_raise in Hold as [Hb ->].
      split; [intros H; inversion H; auto | intros (-> & _); reflexivity].
Qed.

(** X14: the step of [_analyze_structs] for a structure of both trees
    never raises; it records nothing exactly when the two extracted field
    lists are equal, which is the case when neither file can be read. *)
Theorem analyze_common_struct_total
    (readlines : string -> option (list string))
    (path_join : string -> string -> string)
    (old_kernel new_kernel name : string) (old_struct new_struct : TagInfo) :
  ∃ old_fields new_fields,
    extract_struct_fields readlines
      (path_join old_kernel (tag_file old_struct)) name (tag_line old_struct)
    = Ok old_fields
    ∧ extract_struct_fields readlines
        (path_join new_kernel (tag_file new_struct)) name (tag_line new_struct)
      = Ok new_fields
    ∧ (∃ r, analyze_common_struct readlines path_join old_kernel new_kernel
              name old_struct new_struct = Ok r
            ∧ (r = None ↔ old_fields = new_fields))
    ∧ (readlines (path_join old_kernel (tag_file old_struct)) = None ->
       readlines (path_join new_kernel (tag_file new_struct)) = None ->
       analyze_common_struct readlines path_join old_kernel new_kernel
         name old_struct new_struct = Ok None).
Proof.
  unfold analyze_common_struct.
  destruct (try_except_ok
              (extract_struct_fields_body readlines
                 (path_join old_kernel (tag_file old_struct)) name
                 (tag_line old_struct)) []) as [old_fields Ho].
  destruct (try_except_ok
              (extract_struct_fields_body readlines
                 (path_join new_kernel (tag_file new_struct)) name
                 (tag_line new_struct)) []) as [new_fields Hn].
  exists old_fields, new_fields.
  unfold extract_struct_fields in *. rewrite Ho, Hn. simpl.
  split_and!; try reflexivity.
  - destruct (decide (old_fields = new_fields)) as [He | He].
    + rewrite bool_decide_eq_false_2 by (intros H; apply H, He).
      exists None. tauto.
    + rewrite (bool_decide_eq_true_2 _ He). eexists. split; [reflexivity|].
      split; [discriminate | contradiction].
  - intros Hro Hrn.
    unfold extract_struct_fields_body, open_readlines in Ho, Hn.
    rewrite Hro in Ho. rewrite Hrn in Hn. simpl in Ho, Hn.
    inversion Ho; inversion Hn; subst. reflexivity.
Qed.

Lemma analyze_common_struct_total_witness :
  analyze_common_struct sample_tree sample_join "old" "new" "pt"
    (mkTagInfo "include/gone.h" 6 "") (mkTagInfo "include/gone.h" 6 "")
  = Ok None.
Proof.
  destruct (analyze_common_struct_total sample_tree sample_join "old" "new"
              "pt" (mkTagInfo "include/gone.h" 6 "")
              (mkTagInfo "include/gone.h" 6 ""))
    as (old_fields & new_fields & _ & _ & _ & H).
  apply H; reflexivity.
Defined.

(** ** Macros and the summary *)

Lemma analyze_macros_blocks (old_macros new_macros : gmap string TagInfo) :
  _analyze_macros old_macros new_macros
  = added_macros old_macros new_macros ++ removed_macros old_macros new_macros
    ++ modified_macros old_macros new_macros.
Proof. reflexivity. Qed.

Lemma added_macros_spec (old_macros new_macros : gmap string TagInfo)
    (c : MacroChange) :
  In c (added_macros old_macros new_macros)
  ↔ ∃ name t, c = macro_added name (tag_file t)
              ∧ old_macros !! name = None ∧ new_macros !! name = Some t.
Proof.
  unfold added_macros. rewrite in_flat_map. split.
  - intros (name & Hname & Hc).
    apply list_elem_of_In, elem_of_elements, elem_of_difference in Hname
      as [_ Hold].
    apply not_elem_of_dom in Hold.
    destruct (new_macros !! name) as [t|] eqn:Hnew; [|destruct Hc].
    destruct Hc as [<- | []]. exists name, t. auto.
  - intros (name & t & -> & Hold & Hnew). exists name. split.
    + apply list_elem_of_In, elem_of_elements, elem_of_difference. split.
      * apply elem_of_dom. eauto.
      * apply not_elem_of_dom, Hold.
    + rewrite Hnew. left. reflexivity.
Qed.

Lemma removed_macros_spec (old_macros new_macros : gmap string TagInfo)
    (c : MacroChange) :
  In c (removed_macros old_macros new_macros)
  ↔ ∃ name t, c = macro_removed name (tag_file t)
              ∧ new_macros !! name = None ∧ old_macros !! name = Some t.
Proof.
  unfold removed_macros. rewrite in_flat_map. split.
  - intros (name & Hname & Hc).
    apply list_elem_of_In, elem_of_elements, elem_of_difference in Hname
      as [_ Hnew].
    apply not_elem_of_dom in Hnew.
    destruct (old_macros !! name) as [t|] eqn:Hold; [|destruct Hc].
    destruct Hc as [<- | []]. exists name, t. auto.
  - intros (name & t & -> & Hnew & Hold). exists name. split.
    + apply list_elem_of_In, elem_of_elements, elem_of_difference. split.
      * apply elem_of_dom. eauto.
      * apply not_elem_of_dom, Hnew.
    + rewrite Hold. left. reflexivity.
Qed.

Lemma modified_macros_spec (old_macros new_macros : gmap string TagInfo)
    (c : MacroChange) :
  In c (modified_macros old_macros new_macros)
  ↔ ∃ name o n, c = macro_modified name (tag_file n)
                      (tag_signature o) (tag_signature n)
                ∧ old_macros !! name = Some o ∧ new_macros !! name = Some n
                ∧ tag_signature o ≠ tag_signature n.
Proof.
  unfold modified_macros. rewrite in_flat_map. split.
  - intros (name & _ & Hc).
    destruct (old_macros !! name) as [o|] eqn:Hold; [|destruct Hc].
    destruct (new_macros !! name) as [n|] eqn:Hnew; [|destruct Hc].
    destruct (bool_decide (tag_signature o ≠ tag_signature n)) eqn:Hd;
      [|destruct Hc].
    apply bool_decide_eq_true in Hd.
    destruct Hc as [<- | []]. exists name, o, n. auto.
  - intros (name & o & n & -> & Hold & Hnew & Hne). exists name. split.
    + apply list_elem_of_In, elem_of_elements, elem_of_intersection.
      split; apply elem_of_dom; eauto.
    + rewrite Hold, Hnew, (bool_decide_eq_true_2 _ Hne). left. reflexivity.
Qed.

(** The names of the records made from a duplicate-free list of names,
    at most one record per name and under that name. *)
Lemma names_of_flat_map (f : string -> list MacroChange) (names : list string) :
  NoDup names ->
  (∀ x, f x = [] ∨ ∃ c, f x = [c] ∧ macro_name c = x) ->
  NoDup (macro_name <$> flat_map f names)
  ∧ ∀ y, y ∈ macro_name <$> flat_map f names -> y ∈ names.
Proof.
  intros Hnd Hf. induction Hnd as [|x names Hx Hnd [IH1 IH2]]; simpl.
  - split; [constructor | intros y Hy; exact Hy].
  - destruct (Hf x) as [-> | (c & -> & Hc)]; simpl.
    + split; [exact IH1 | intros y Hy; right; apply IH2, Hy].
    + rewrite Hc. split.
      * constructor; [intros Hin; apply Hx, IH2, Hin | exact IH1].
      * intros y Hy. apply elem_of_cons in Hy as [-> | Hy];
          [left | right; apply IH2, Hy].
Qed.

(** X15: the records of [_analyze_macros]. A name only in the new index
    gets an added record, a name only in the old one a removed record, a
    name in both a modified record exactly when the two signatures
    differ; no name gets more than one record. *)
Theorem macro_changes_spec (old_macros new_macros : gmap string TagInfo) :
  let r := _analyze_macros old_macros new_macros in
  (∀ name file,
     macro_added name file ∈ r
     ↔ old_macros !! name = None
       ∧ ∃ t, new_macros !! name = Some t ∧ file = tag_file t)
  ∧ (∀ name file,
       macro_removed name file ∈ r
       ↔ new_macros !! name = None
         ∧ ∃ t, old_macros !! name = Some t ∧ file = tag_file t)
  ∧ (∀ name file old_definition new_definition,
       macro_modified name file old_definition new_definition ∈ r
       ↔ ∃ o n, old_macros !! name = Some o ∧ new_macros !! name = Some n
                ∧ file = tag_file n ∧ old_definition = tag_signature o
                ∧ new_definition = tag_signature n
                ∧ old_definition ≠ new_definition)
  ∧ NoDup (macro_name <$> r).
Proof.
  intros r. subst r. rewrite analyze_macros_blocks. split_and!.
  - intros name file.
    rewrite list_elem_of_In, !in_app_iff, added_macros_spec,
      removed_macros_spec, modified_macros_spec.
    split.
    + intros [(x & t & Hc & Ho & Hn) | [(x & t & Hc & _) | (x & o & n & Hc & _)]];
        inversion Hc; subst. split; [assumption | exists t; auto].
    + intros (Ho & t & Hn & ->). left. exists name, t. auto.
  - intros name file.
    rewrite list_elem_of_In, !in_app_iff, added_macros_spec,
      removed_macros_spec, modified_macros_spec.
    split.
    + intros [(x & t & Hc & _) | [(x & t & Hc & Hn & Ho) | (x & o & n & Hc & _)]];
        inversion Hc; subst. split; [assumption | exists t; auto].
    + intros (Hn & t & Ho & ->). right. left. exists name, t. auto.
  - intros name file od nd.
    rewrite list_elem_of_In, !in_app_iff, added_macros_spec,
      removed_macros_spec, modified_macros_spec.
    split.
    + intros [(x & t & Hc & _) | [(x & t & Hc & _)
                                  | (x & o & n & Hc & Ho & Hn & Hne)]];
        inversion Hc; subst. exists o, n. split_and!; auto.
    + intros (o & n & Ho & Hn & -> & -> & -> & Hne). right. right.
      exists name, o, n. auto.
  - rewrite !fmap_app.
    destruct (names_of_flat_map
                (fun name => match new_macros !! name with
                             | Some t => [macro_added name (tag_file t)]
                             | None => []
                             end)
                (elements (dom new_macros ∖ dom old_macros))
                (NoDup_elements _)) as [Ha1 Ha2].
    { intros x. destruct (new_macros !! x); [right | left]; eauto. }
    destruct (names_of_flat_map
                (fun name => match old_macros !! name with
                             | Some t => [macro_removed name (tag_file t)]
                             | None => []
                             end)
                (elements (dom old_macros ∖ dom new_macros))
                (NoDup_elements _)) as [Hr1 Hr2].
    { intros x. destruct (old_macros !! x); [right | left]; eauto. }
    destruct (names_of_flat_map
                (fun name =>
                   match old_macros !! name, new_macros !! name with
                   | Some o, Some n =>
                       if bool_decide (tag_signature o ≠ tag_signature n)
                       then [macro_modified name (tag_file n)
                               (tag_signature o) (tag_signature n)]
                       else []
                   | _, _ => []
                   end)
                (elements (dom old_macros ∩ dom new_macros))
                (NoDup_elements _)) as [Hm1 Hm2].
    { intros x. destruct (old_macros !! x), (new_macros !! x); auto.
      destruct (bool_decide _); [right | left]; eauto. }
    apply NoDup_app. split_and!; [exact Ha1 | | apply NoDup_app; split_and!;
                                   [exact Hr1 | | exact Hm1]].
    + intros y Hy Hy'. apply Ha2 in Hy.
      apply elem_of_elements, elem_of_difference in Hy as [_ Hy].
      apply elem_of_app in Hy' as [Hy' | Hy'].
      * apply Hr2, elem_of_elements, elem_of_difference in Hy' as [Hy' _].
        contradiction.
      * apply Hm2, elem_of_elements, elem_of_intersection in Hy' as [Hy' _].
        contradiction.
    + intros y Hy Hy'.
      apply Hr2, elem_of_elements, elem_of_difference in Hy as [_ Hy].
      apply Hm2, elem_of_elements, elem_of_intersection in Hy' as [_ Hy'].
      contradiction.
Qed.

Lemma flat_map_Forall {A B : Type} (Q : B -> Prop) (f : A -> list B)
    (xs : list A) :
  (∀ x, Forall Q (f x)) -> Forall Q (flat_map f xs).
Proof.
  intros Hf. induction xs as [|x xs IH]; simpl; [constructor|].
  apply Forall_app. auto.
Qed.

Lemma flat_map_length_le {A B : Type} (f : A -> list B) (xs : list A) :
  (∀ x, (length (f x) <= 1)%nat) ->
  (length (flat_map f xs) <= length xs)%nat.
Proof.
  intros Hf. induction xs as [|x xs IH]; simpl; [lia|].
  rewrite length_app. specialize (Hf x). lia.
Qed.

Lemma flat_map_length_eq {A B : Type} (f : A -> list B) (xs : list A) :
  (∀ x, x ∈ xs -> length (f x) = 1%nat) ->
  length (flat_map f xs) = length xs.
Proof.
  induction xs as [|x xs IH]; intros Hf; simpl; [reflexivity|].
  rewrite length_app, (Hf x) by left.
  rewrite IH; [reflexivity|]. intros y Hy. apply Hf. right. exact Hy.
Qed.

Lemma added_macros_kind (old_macros new_macros : gmap string TagInfo)
    (Q : MacroChange -> Prop) :
  (∀ name file, Q (macro_added name file)) ->
  Forall Q (added_macros old_macros new_macros).
Proof.
  intros HQ. apply flat_map_Forall. intros x.
  destruct (new_macros !! x); repeat constructor. apply HQ.
Qed.

Lemma removed_macros_kind (old_macros new_macros : gmap string TagInfo)
    (Q : MacroChange -> Prop) :
  (∀ name file, Q (macro_removed name file)) ->
  Forall Q (removed_macros old_macros new_macros).
Proof.
  intros HQ. apply flat_map_Forall. intros x.
  destruct (old_macros !! x); repeat constructor. apply HQ.
Qed.

Lemma modified_macros_kind (old_macros new_macros : gmap string TagInfo)
    (Q : MacroChange -> Prop) :
  (∀ name file od nd, Q (macro_modified name file od nd)) ->
  Forall Q (modified_macros old_macros new_macros).
Proof.
  intros HQ. apply flat_map_Forall. intros x.
  destruct (old_macros !! x), (new_macros !! x); try constructor.
  destruct (bool_decide _); repeat constructor. apply HQ.
Qed.

Lemma added_macros_length (old_macros new_macros : gmap string TagInfo) :
  length (added_macros old_macros new_macros)
  = size (dom new_macros ∖ dom old_macros).
Proof.
  unfold added_macros. apply flat_map_length_eq. intros x Hx.
  apply elem_of_elements, elem_of_difference in Hx as [Hx _].
  apply elem_of_dom in Hx as [t ->]. reflexivity.
Qed.

Lemma removed_macros_length (old_macros new_macros : gmap string TagInfo) :
  length (removed_macros old_macros new_macros)
  = size (dom old_macros ∖ dom new_macros).
Proof.
  unfold removed_macros. apply flat_map_length_eq. intros x Hx.
  apply elem_of_elements, elem_of_difference in Hx as [Hx _].
  apply elem_of_dom in Hx as [t ->]. reflexivity.
Qed.

Lemma modified_macros_length (old_macros new_macros : gmap string TagInfo) :
  (length (modified_macros old_macros new_macros)
   <= size (dom old_macros ∩ dom new_macros))%nat.
Proof.
  unfold modified_macros. apply flat_map_length_le. intros x.
  destruct (old_macros !! x), (new_macros !! x); simpl; try lia.
  destruct (bool_decide _); simpl; lia.
Qed.

(** X16: the summary of the macro records. The total is the sum of the
    three counts; the added count is the number of names only in the new
    index, the removed count the number of names only in the old one, and
    the modified count is at most the number of names in both. *)
Theorem macro_summary_counts (old_macros new_macros : gmap string TagInfo) :
  let s := _generate_summary macro_change_type
             (_analyze_macros old_macros new_macros) in
  total_changes s = (sum_added s + sum_removed s + sum_modified s)%nat
  ∧ sum_added s = size (dom new_macros ∖ dom old_macros)
  ∧ sum_removed s = size (dom old_macros ∖ dom new_macros)
  ∧ (sum_modified s <= size (dom old_macros ∩ dom new_macros))%nat.
Proof.
  intros s. subst s. unfold _generate_summary. simpl.
  rewrite analyze_macros_blocks, !List.filter_app, !length_app.
  rewrite (filter_keep _ (added_macros old_macros new_macros))
    by (apply added_macros_kind; reflexivity).
  rewrite (filter_drop _ (removed_macros old_macros new_macros))
    by (apply removed_macros_kind; reflexivity).
  rewrite (filter_drop _ (modified_macros old_macros new_macros))
    by (apply modified_macros_kind; reflexivity).
  rewrite (filter_drop _ (added_macros old_macros new_macros))
    by (apply added_macros_kind; reflexivity).
  rewrite (filter_keep _ (removed_macros old_macros new_macros))
    by (apply removed_macros_kind; reflexivity).
  rewrite (filter_drop _ (modified_macros old_macros new_macros))
    by (apply modified_macros_kind; reflexivity).
  rewrite (filter_drop _ (added_macros old_macros new_macros))
    by (apply added_macros_kind; reflexivity).
  rewrite (filter_drop _ (removed_macros old_macros new_macros))
    by (apply removed_macros_kind; reflexivity).
  rewrite (filter_keep _ (modified_macros old_macros new_macros))
    by (apply modified_macros_kind; reflexivity).
  simpl. rewrite !Nat.add_0_r.
  pose proof (added_macros_length old_macros new_macros).
  pose proof (removed_macros_length old_macros new_macros).
  pose proof (modified_macros_length old_macros new_macros).
  split_and!; lia.
Qed.

(** ** The ABI classifier on the output of the two diffs *)

Lemma function_abi_none_iff (func : FunctionModified) :
  _analyze_function_abi_impact func = None
  ↔ List.filter is_count_change (parameter_changes func) = []
    ∧ List.filter is_type_change (parameter_changes func) = []
    ∧ return_type_changed func = false.
Proof.
  unfold _analyze_function_abi_impact.
  destruct (List.filter is_count_change _),
    (List.filter is_type_change _), (return_type_changed func); simpl;
    split; try discriminate; try (intros (? & ? & ?); discriminate); auto.
Qed.

Lemma filter_nil_iff {A : Type} (P : A -> bool) (xs : list A) :
  List.filter P xs = [] ↔ ∀ x, In x xs -> P x = false.
Proof.
  induction xs as [|x xs IH]; simpl; [tauto|].
  destruct (P x) eqn:Hx.
  - split; [discriminate|]. intros H. specialize (H x (or_introl eq_refl)).
    congruence.
  - rewrite IH. split; [intros H y [<- | Hy]; auto | auto].
Qed.

(** X17: on the records of [compare_function_parameters], the function
    classifier gives no finding exactly when the return-type flag is
    false, the two lists have the same length and the types agree at
    every index; names play no part. *)
Theorem function_abi_of_diff (name file old_sig new_sig : string)
    (line_old line_new : Z) (flag : bool) (old_return new_return : string)
    (old_params new_params : list Param) :
  _analyze_function_abi_impact
    (mkFunctionModified name file old_sig new_sig line_old line_new flag
       old_return new_return
       (compare_function_parameters old_params new_params)) = None
  ↔ flag = false
    ∧ length old_params = length new_params
    ∧ ∀ i o n, old_params !! i = Some o -> new_params !! i = Some n ->
        p_type o = p_type n.
Proof.
  rewrite function_abi_none_iff. simpl.
  destruct (filter_blocks old_params new_params) as (Hc & _ & _).
  simpl in Hc. rewrite Hc, filter_nil_iff. unfold count_block. split.
  - intros (Hcount & Htype & Hflag). split_and!; [exact Hflag | |].
    + destruct (decide (length old_params = length new_params)) as [He | He];
        [exact He|].
      rewrite (bool_decide_eq_true_2 _ He) in Hcount. discriminate.
    + intros i o n Ho Hn.
      destruct (decide (p_type o = p_type n)) as [He | He]; [exact He|].
      specialize (Htype (param_type_change i (p_type o) (p_type n) (p_name n))).
      simpl in Htype. enough (true = false) by discriminate. apply Htype.
      apply list_elem_of_In, prefix_record_spec; [reflexivity|].
      exists i, o, n. rewrite compare_at_type. split_and!; done.
  - intros (Hflag & Hlen & Htypes). split_and!; [| |exact Hflag].
    + rewrite bool_decide_eq_false_2 by (intros H; apply H, Hlen).
      reflexivity.
    + intros c Hin. destruct c as [a b|i ot nt nm|i a b|i a|i a];
        try reflexivity.
      apply list_elem_of_In, prefix_record_spec in Hin; [|reflexivity].
      destruct Hin as (j & o & n & Ho & Hn & Hin).
      apply compare_at_type in Hin as (_ & _ & _ & _ & Hne).
      destruct (Hne (Htypes j o n Ho Hn)).
Qed.

Lemma struct_abi_none_iff (struct : StructModified) (fc : FieldChanges) :
  field_changes struct = Some fc ->
  _analyze_struct_abi_impact struct = None
  ↔ fc_added fc = [] ∧ fc_removed fc = [] ∧ fc_modified fc = [].
Proof.
  intros Hfc. unfold _analyze_struct_abi_impact, fc_get. rewrite Hfc.
  destruct (fc_removed fc), (fc_modified fc), (fc_added fc); simpl;
    split; try discriminate; try (intros (? & ? & ?); discriminate); auto.
Qed.

Lemma struct_abi_high_iff (struct : StructModified) (fc : FieldChanges)
    (f : ABIFinding) :
  field_changes struct = Some fc ->
  _analyze_struct_abi_impact struct = Some f ->
  severity f = high ↔ fc_removed fc ≠ [].
Proof.
  intros Hfc. unfold _analyze_struct_abi_impact, fc_get. rewrite Hfc.
  destruct (fc_removed fc), (fc_modified fc), (fc_added fc); simpl;
    intros Hf; inversion Hf; subst; simpl; split; congruence.
Qed.

(** X18: on the result of [compare_struct_fields], the structure
    classifier gives no finding exactly when the two lists hold the same
    field texts and agree at every index they share; a finding has
    severity high exactly when some field of the old list is missing from
    the new one. *)
Theorem struct_abi_of_diff (name file : string)
    (old_fields new_fields : list string) :
  let struct := mkStructModified name file
                  (Some (compare_struct_fields old_fields new_fields)) in
  (_analyze_struct_abi_impact struct = None
   ↔ (∀ x, x ∈ old_fields ↔ x ∈ new_fields)
     ∧ ∀ i o n, old_fields !! i = Some o -> new_fields !! i = Some n -> o = n)
  ∧ (∀ f, _analyze_struct_abi_impact struct = Some f ->
       (severity f = high ↔ ∃ x, x ∈ old_fields ∧ x ∉ new_fields)).
Proof.
  intros struct. split.
  - rewrite (struct_abi_none_iff struct _ eq_refl).
    rewrite (nil_iff_no_elem (fc_modified _)).
    pose proof (same_fields_iff old_fields new_fields) as Hsets.
    split.
    + intros (Ha & Hr & Hm).
      assert (Hsame : ∀ x, x ∈ old_fields ↔ x ∈ new_fields)
        by (apply Hsets; auto).
      split; [exact Hsame|]. intros i o n Ho Hn.
      destruct (decide (o = n)) as [He | He]; [exact He|].
      destruct (Hm (mkFieldMove i o n)).
      apply list_elem_of_In, modified_spec. split_and!; auto.
      * apply Hsame. eapply list_elem_of_lookup_2, Ho.
      * apply Hsame. eapply list_elem_of_lookup_2, Hn.
    + intros (Hsame & Hpos). apply Hsets in Hsame as [Ha Hr].
      split_and!; [exact Ha | exact Hr|].
      intros [i o n] Hin.
      apply list_elem_of_In, modified_spec in Hin as (Ho & Hn & Hne & _).
      apply Hne, (Hpos i o n Ho Hn).
  - intros f Hf.
    rewrite (struct_abi_high_iff struct _ f eq_refl Hf). simpl. rewrite elements_difference_nil. split.
    + intros Hne.
      destruct (decide (Forall (λ x, x ∈ new_fields) old_fields)) as [Hall | Hex].
      * destruct Hne. intros x Hx. rewrite Forall_forall in Hall. auto.
      * apply not_Forall_Exists in Hex; [|intros x; apply _].
        apply Exists_exists in Hex as (x & Hx & Hnot). eauto.
    + intros (x & Hx & Hnot) Hall. apply Hnot, Hall, Hx.
Qed.

(** X19: every finding that [analyze_abi_impact] records has between one
    and three reasons; a finding on a function has severity high, and a
    finding on a structure has severity high exactly when its reasons
    include the removal of fields. *)
Theorem abi_findings_have_reasons (api_changes : ApiChanges) :
  Forall (λ f,
            reasons f ≠ [] ∧ (length (reasons f) <= 3)%nat
            ∧ (abi_type f = function -> severity f = high)
            ∧ (abi_type f = structure ->
               (severity f = high ↔ "Fields removed" ∈ reasons f)))
    (analyze_abi_impact api_changes).
Proof.
  unfold analyze_abi_impact. apply Forall_app. split.
  - apply Forall_forall. intros f Hf.
    apply list_elem_of_omap in Hf as (struct & _ & Hf).
    unfold _analyze_struct_abi_impact in Hf.
    destruct (fc_get _ fc_removed), (fc_get _ fc_modified),
      (fc_get _ fc_added); simpl in Hf; inversion Hf; subst; simpl;
      (split_and!; [discriminate | lia | discriminate |]);
      intros _; split; try discriminate; try reflexivity;
      try (intros _; set_solver);
      intros Hin; repeat (apply elem_of_cons in Hin as [Hin | Hin];
                          [discriminate|]);
      apply elem_of_nil in Hin; destruct Hin.
  - apply Forall_forall. intros f Hf.
    apply list_elem_of_omap in Hf as (func & _ & Hf).
    unfold _analyze_function_abi_impact in Hf.
    destruct (List.filter is_count_change _),
      (List.filter is_type_change _), (return_type_changed func);
      simpl in Hf; inversion Hf; subst; simpl;
      (split_and!; [discriminate | lia | reflexivity | discriminate]).
Qed.

(** ** The subsystem of a file *)

Lemma prefix_has_char (ch : ascii) (p s : string) :
  String.prefix p s = true -> Py.has_char ch p = true ->
  Py.has_char ch s = true.
Proof.
  revert p. induction s as [|c s IH]; intros [|a p]; simpl;
    try discriminate.
  destruct (Ascii.ascii_dec a c) as [-> | _]; [|discriminate].
  intros Hp Hch. apply orb_true_iff in Hch as [Hch | Hch].
  - rewrite Hch. reflexivity.
  - rewrite (IH p Hp Hch). apply orb_true_r.
Qed.

Lemma contains_has_char (ch : ascii) (p s : string) :
  Py.contains p s = true -> Py.has_char ch p = true ->
  Py.has_char ch s = true.
Proof.
  intros Hc Hch. induction s as [|c s IH].
  - simpl in Hc. rewrite orb_false_r in Hc.
    exact (prefix_has_char ch p "" Hc Hch).
  - change (Py.contains p (String c s))
      with (String.prefix p (String c s) || Py.contains p s) in Hc.
    apply orb_true_iff in Hc as [Hc | Hc].
    + exact (prefix_has_char ch p _ Hc Hch).
    + simpl. rewrite (IH Hc). apply orb_true_r.
Qed.

Lemma contains_star (p s : string) :
  Py.has_char "*" p = true -> Py.has_char "*" s = false ->
  Py.contains p s = false.
Proof.
  intros Hp Hs. destruct (Py.contains p s) eqn:Hc; [|reflexivity].
  rewrite (contains_has_char "*" p s Hc Hp) in Hs. discriminate.
Qed.

(** X20: the patterns with an asterisk are looked for as plain text, so
    for a path without an asterisk only the two directory patterns count:
    the subsystem is [net] when the path contains [include/net/], else
    [crypto] when it contains [include/crypto/], else [other]. *)
Theorem categorize_plain_path (file_path : string) :
  Py.has_char "*" file_path = false ->
  _categorize_file file_path
  = if Py.contains "include/net/" file_path then "net"
    else if Py.contains "include/crypto/" file_path then "crypto"
    else "other".
Proof.
  intros Hstar.
  unfold _categorize_file, _identify_subsystems, categorize_in.
  change (Py.split_ws "include/linux/mm*.h") with ["include/linux/mm*.h"].
  change (Py.split_ws "include/linux/fs*.h") with ["include/linux/fs*.h"].
  change (Py.split_ws "include/linux/net*.h include/net/")
    with ["include/linux/net*.h"; "include/net/"].
  change (Py.split_ws "include/linux/device*.h include/linux/driver*.h")
    with ["include/linux/device*.h"; "include/linux/driver*.h"].
  change (Py.split_ws "include/linux/sched*.h")
    with ["include/linux/sched*.h"].
  change (Py.split_ws "include/linux/blk*.h") with ["include/linux/blk*.h"].
  change (Py.split_ws "include/linux/crypto*.h include/crypto/")
    with ["include/linux/crypto*.h"; "include/crypto/"].
  unfold existsb.
  rewrite (contains_star "include/linux/mm*.h" _ eq_refl Hstar).
  rewrite (contains_star "include/linux/fs*.h" _ eq_refl Hstar).
  rewrite (contains_star "include/linux/net*.h" _ eq_refl Hstar).
  rewrite (contains_star "include/linux/device*.h" _ eq_refl Hstar).
  rewrite (contains_star "include/linux/driver*.h" _ eq_refl Hstar).
  rewrite (contains_star "include/linux/sched*.h" _ eq_refl Hstar).
  rewrite (contains_star "include/linux/blk*.h" _ eq_refl Hstar).
  rewrite (contains_star "include/linux/crypto*.h" _ eq_refl Hstar).
  cbn [orb]. rewrite !orb_false_r. reflexivity.
Qed.

Lemma categorize_plain_path_witness :
  _categorize_file "include/linux/mm_types.h" = "other"
  ∧ _categorize_file "include/net/sock.h" = "net".
Proof.
  split.
  - rewrite (categorize_plain_path "include/linux/mm_types.h" eq_refl).
    vm_compute. reflexivity.
  - rewrite (categorize_plain_path "include/net/sock.h" eq_refl).
    vm_compute. reflexivity.
Defined.

(** ** The two tag parsers *)

Lemma is_public_api_true (path : option string) :
  _is_public_api path = true ->
  ∃ p, path = Some p ∧ Py.contains "include/" p = true
       ∧ endswith ".h" p = true.
Proof.
  unfold _is_public_api. destruct path as [p|]; [|discriminate].
  destruct (negb (truthy p)); [discriminate|].
  intros H. apply andb_true_iff in H. exists p. tauto.
Qed.

Lemma process_tag_public (self : CTagsParser) (tag : CTag) :
  all_entries public_entry self ->
  all_entries public_entry (_process_tag self tag).
Proof.
  intros (Hf & Hm & Hs & Ht & He). unfold _process_tag.
  destruct (_is_public_api (ct_path tag)) eqn:Hpub; simpl;
    [|unfold all_entries; split_and!; assumption].
  apply is_public_api_true in Hpub as (p & Hp & Hinc & Hh).
  rewrite Hp. simpl.
  assert (Hnew : public_entry (ct_name tag)
                   (mkTagEntry (ct_name tag) p (default 0 (ct_line tag))
                      (default "" (ct_signature tag))
                      (default "" (ct_scope tag))
                      (default "public" (ct_access tag))))
    by (unfold public_entry; simpl; split_and!; done).
  repeat (destruct (bool_decide _));
    unfold all_entries; simpl; split_and!;
    try assumption; apply map_Forall_insert_2; assumption.
Qed.

(** X21: whatever the lines of the tags file, every entry that [parse]
    stores carries the name it is stored under and the path of a public
    header, one that contains [include/] and ends in [.h]. *)
Theorem parsed_entries_public (lines : list (option CTag)) :
  all_entries public_entry (parse lines).
Proof.
  unfold parse.
  assert (Hinit : all_entries public_entry new_parser)
    by (unfold all_entries; split_and!; apply map_Forall_empty).
  revert Hinit. generalize new_parser.
  induction lines as [|line lines IH]; intros self Hself; simpl;
    [exact Hself|].
  apply IH. destruct line as [tag|]; [|exact Hself].
  apply process_tag_public, Hself.
Qed.

Lemma ctags_step_proper (symbols : gmap string JTag) (tag : JTag) :
  map_Forall proper_symbol symbols ->
  map_Forall proper_symbol (ctags_step symbols tag).
Proof.
  intros Hsym. unfold ctags_step.
  destruct (decide (jt_type tag = Some "tag")) as [Hty | Hty];
    [|rewrite (bool_decide_eq_true_2 _ Hty); exact Hsym].
  rewrite bool_decide_eq_false_2 by (intros H; apply H, Hty).
  destruct (jt_name tag) as [name|] eqn:Hname; [|exact Hsym].
  destruct (truthy name) eqn:Htr; simpl; [|exact Hsym].
  apply truthy_true in Htr.
  assert (Hnew : proper_symbol name tag)
    by (unfold proper_symbol; split_and!; assumption).
  destruct (symbols !! name) as [current|];
    [|apply map_Forall_insert_2; assumption].
  destruct (_ && _); [apply map_Forall_insert_2; assumption|].
  destruct (_ && _); [exact Hsym | apply map_Forall_insert_2; assumption].
Qed.

Lemma fold_ctags_step_proper (lines : list (option JTag))
    (symbols : gmap string JTag) :
  map_Forall proper_symbol symbols ->
  map_Forall proper_symbol
    (fold_left (fun symbols line => match line with
                                    | Some tag => ctags_step symbols tag
                                    | None => symbols
                                    end) lines symbols).
Proof.
  revert symbols. induction lines as [|line lines IH]; intros symbols Hsym;
    simpl; [exact Hsym|].
  apply IH. destruct line as [tag|]; [|exact Hsym].
  apply ctags_step_proper, Hsym.
Qed.

(** X22: every tag of the table that [parse_ctags_json] builds is a real
    tag (its [_type] is [tag]) stored under its own, non-empty name. *)
Theorem symbol_table_proper (lines : list (option JTag)) :
  map_Forall proper_symbol (parse_ctags_json lines).
Proof. apply fold_ctags_step_proper, map_Forall_empty. Qed.

Lemma ctags_step_keeps_header (symbols : gmap string JTag) (tag : JTag)
    (name : string) (current : JTag) :
  symbols !! name = Some current -> header_tag current = true ->
  ∃ kept, ctags_step symbols tag !! name = Some kept
          ∧ header_tag kept = true.
Proof.
  intros Hcur Hhdr. unfold ctags_step.
  destruct (bool_decide (jt_type tag ≠ Some "tag")); [eauto|].
  destruct (jt_name tag) as [name'|]; [|eauto].
  destruct (negb (truthy name')); [eauto|].
  destruct (decide (name' = name)) as [-> | Hne].
  - rewrite Hcur. cbv zeta. fold (header_tag current). fold (header_tag tag).
    rewrite Hhdr. simpl.
    destruct (header_tag tag) eqn:Hnew; simpl.
    + exists tag. rewrite lookup_insert_eq. auto.
    + eauto.
  - destruct (symbols !! name') as [other|].
    + destruct (_ && _); [rewrite lookup_insert_ne by exact Hne; eauto|].
      destruct (_ && _); [eauto|].
      rewrite lookup_insert_ne by exact Hne. eauto.
    + rewrite lookup_insert_ne by exact Hne. eauto.
Qed.

(** X23: the definition of a header is never given up for one that is
    not: once the table holds, for a name, a tag whose path ends in [.h]
    or [.H], it holds such a tag for that name after any further lines. *)
Theorem header_definition_kept (lines more : list (option JTag))
    (name : string) (current : JTag) :
  parse_ctags_json lines !! name = Some current ->
  header_tag current = true ->
  ∃ kept, parse_ctags_json (lines ++ more) !! name = Some kept
          ∧ header_tag kept = true.
Proof.
  unfold parse_ctags_json. rewrite fold_left_app.
  generalize (fold_left (fun symbols line => match line with
                                             | Some tag => ctags_step symbols tag
                                             | None => symbols
                                             end) lines (∅ : gmap string JTag)).
  intros symbols. revert symbols current.
  induction more as [|line more IH]; intros symbols current Hcur Hhdr; simpl;
    [eauto|].
  destruct line as [tag|]; [|eapply IH; eassumption].
  destruct (ctags_step_keeps_header symbols tag name current Hcur Hhdr)
    as (kept & Hkept & Hk).
  eapply IH; eassumption.
Qed.

Lemma header_definition_kept_witness :
  ∃ kept,
    parse_ctags_json ([Some sample_header_tag] ++ [None; Some sample_source_tag])
      !! "kmalloc" = Some kept
    ∧ header_tag kept = true.
Proof.
  apply (header_definition_kept [Some sample_header_tag]
           [None; Some sample_source_tag] "kmalloc" sample_header_tag).
  - vm_compute. reflexivity.
  - vm_compute. reflexivity.
Defined.

(** ** A type followed by a name *)

Lemma rstrip_app_token (a tok : string) :
  tok ≠ "" -> Py.any_space tok = false -> Py.rstrip (a +:+ tok) = a +:+ tok.
Proof.
  intros Hne Hns. induction a as [|c a IH]; simpl.
  - apply rstrip_no_space, Hns.
  - rewrite IH. destruct (a +:+ tok) eqn:E; [|reflexivity].
    destruct a; simpl in E; [congruence | discriminate].
Qed.

Lemma rstrip_fixed_tail (c : ascii) (s : string) :
  Py.rstrip (String c s) = String c s ->
  match s with
  | EmptyString => Py.isspace c = false
  | _ => Py.rstrip s = s
  end.
Proof.
  simpl. destruct s as [|d s']; simpl.
  - destruct (Py.isspace c); [discriminate | reflexivity].
  - destruct (match Py.rstrip s' with
              | "" => if Py.isspace d then "" else String d ""
              | String a s0 => String d (String a s0)
              end) eqn:E.
    + destruct (Py.isspace c); discriminate.
    + intros H. inversion H. reflexivity.
Qed.

Lemma ws_normal_app_token (ty tok : string) :
  ws_normal ty = true -> Py.rstrip ty = ty -> ty ≠ "" ->
  tok ≠ "" -> Py.any_space tok = false ->
  ws_normal (ty +:+ String " " tok) = true.
Proof.
  intros Hn Hr Hty Htok Hns.
  assert (Htail : ws_normal (String " " tok) = true).
  { destruct tok as [|d tok]; [congruence|].
    simpl in Hns. apply orb_false_iff in Hns as [Hd Hns].
    simpl. rewrite Hd. simpl. apply no_space_ws_normal, Hns. }
  clear Hty. induction ty as [|c ty IH]; [exact Htail|].
  pose proof (rstrip_fixed_tail c ty Hr) as Hr'.
  simpl in Hn. apply andb_true_iff in Hn as [Hc Hn].
  destruct ty as [|d ty'].
  - simpl in *. rewrite Hr'. simpl. exact Htail.
  - specialize (IH Hn Hr').
    change (ws_normal (String c (String d ty' +:+ String " " tok)) = true).
    simpl. simpl in IH. rewrite IH, andb_true_r. exact Hc.
Qed.

Lemma cut_last_space_app_token (ty tok : string) :
  Py.any_space tok = false ->
  Py.cut_last_space (ty +:+ String " " tok) = (ty, tok).
Proof.
  intros Hns. induction ty as [|c ty IH]; simpl.
  - rewrite Hns. reflexivity.
  - assert (Hsp : Py.any_space (ty +:+ String " " tok) = true).
    { clear IH. induction ty as [|d ty IHty]; simpl; [reflexivity|].
      rewrite IHty. apply orb_true_r. }
    rewrite Hsp, IH. reflexivity.
Qed.

Lemma strip_fixed_parts (s : string) :
  Py.strip s = s -> starts_clean s = true ∧ Py.rstrip s = s.
Proof.
  intros H.
  assert (Hc : starts_clean s = true).
  { rewrite <- H. unfold Py.strip.
    apply rstrip_starts_clean, lstrip_starts_clean. }
  split; [exact Hc|]. unfold Py.strip in H.
  rewrite (lstrip_clean s Hc) in H. exact H.
Qed.

Lemma strip_app_token (ty rest : string) :
  starts_clean ty = true -> ty ≠ "" ->
  Py.rstrip (ty +:+ rest) = ty +:+ rest ->
  Py.strip (ty +:+ rest) = ty +:+ rest.
Proof.
  intros Hl Hty Hr. unfold Py.strip.
  rewrite lstrip_clean; [exact Hr|].
  destruct ty as [|c ty]; [congruence | exact Hl].
Qed.

(** X24: a fragment made of a type text in normal form, one space and a
    last token. When the token does not start with an asterisk the type
    and the name are the two parts; when it does, the name is the token
    without its leading asterisks and the type is the type text followed
    by [ *], once, however many asterisks there were. *)
Theorem type_then_token (ty tok : string) :
  ty ≠ "" -> Py.strip ty = ty -> Py.collapse_ws ty = ty ->
  tok ≠ "" -> Py.any_space tok = false ->
  _parse_single_param (ty +:+ String " " tok)
  = if Py.startswith "*" tok then
      mkParam (ty +:+ " *") (Py.lstrip_char "*" tok) (ty +:+ String " " tok)
    else mkParam ty tok (ty +:+ String " " tok).
Proof.
  intros Hty Hstrip Hcol Htok Hns.
  destruct (strip_fixed_parts ty Hstrip) as [Hl Hr].
  assert (Hnorm : ws_normal ty = true)
    by (rewrite <- Hcol; apply collapse_ws_normal).
  assert (Hrfull : Py.rstrip (ty +:+ String " " tok) = ty +:+ String " " tok).
  { replace (ty +:+ String " " tok) with ((ty +:+ " ") +:+ tok)
      by (rewrite append_assoc; reflexivity).
    apply rstrip_app_token; assumption. }
  unfold _parse_single_param.
  rewrite (strip_app_token ty _ Hl Hty Hrfull).
  rewrite (collapse_ws_fixed _ (ws_normal_app_token ty tok Hnorm Hr Hty Htok Hns)).
  unfold Py.rsplit1. rewrite Hrfull.
  destruct (ty +:+ String " " tok) as [|c0 full] eqn:Efull.
  { destruct ty; simpl in Efull; discriminate. }
  rewrite <- Efull, (cut_last_space_app_token ty tok Hns), Hr.
  destruct ty as [|c ty']; [congruence|].
  destruct (Py.startswith "*" tok) eqn:Hstar.
  - f_equal.
    + apply (strip_app_token (String c ty') " *" Hl Hty).
      replace (String c ty' +:+ " *") with ((String c ty' +:+ " ") +:+ "*")
        by (rewrite append_assoc; reflexivity).
      apply rstrip_app_token; [discriminate | reflexivity].
    + apply strip_no_space, lstrip_char_no_space, Hns.
  - rewrite Hstrip, (strip_no_space _ Hns). reflexivity.
Qed.

Lemma type_then_token_witness :
  _parse_single_param "const char ***names"
  = mkParam "const char *" "names" "const char ***names"
  ∧ _parse_single_param "unsigned long flags"
    = mkParam "unsigned long" "flags" "unsigned long flags".
Proof.
  split.
  - refine (type_then_token "const char" "***names" _ _ _ _ _);
      [discriminate | reflexivity | reflexivity | discriminate | reflexivity].
  - refine (type_then_token "unsigned long" "flags" _ _ _ _ _);
      [discriminate | reflexivity | reflexivity | discriminate | reflexivity].
Defined.
